(** * Homebound community page scripts: sticky navigation and gallery overlay

    A shallow embedding of [src/utils/sticky-nav.ts] ([StickyNavController])
    and [src/utils/gallery.ts] ([GalleryController]).

    Conventions of the embedding.
    - DOM state that the controllers read or write is explicit: the nav links
      with their [is-active] class, the layout numbers they are measured by,
      the overlay elements attached to [document.body].
    - Calls that only have an effect outside the controller ([window.scrollTo],
      [strip.scrollTo], [console.error], [preventDefault]) are appended to an
      effect log, in program order.
    - JavaScript numbers.  [offsetLeft], [offsetWidth], [scrollWidth],
      [offsetHeight] and [innerWidth] are integers in the DOM; the strip offset
      is computed from them with halves only, which binary64 represents
      exactly, and is kept as a rational.  [getBoundingClientRect().top] and
      [scrollY] are arbitrary doubles: the window scroll destination is
      computed in binary64 arithmetic, as the engine does. *)

From Stdlib Require Import Floats.
From Stdlib Require Import ZArith QArith Qminmax Lia Lqa Permutation Ascii String.
From stdpp Require Import base strings list gmap.

Local Open Scope string_scope.
Local Open Scope list_scope.

Set Warnings "-register-all,-clear-no-such-hyp,-inexact-float".

(** ** JavaScript property reads on an object literal *)

Module Js.

(** What a property read on a [Record<string, string>] literal can yield: one
    of the literal's own strings, or a member inherited from
    [Object.prototype] (a function or object, always truthy), carried here
    with the text that string conversion gives it. *)
Inductive value :=
| Str (s : string)
| Obj (text : string).

(** [v === s] for a string [s]: never true of an object. *)
Definition strict_eq_string (v : option value) (s : string) : bool :=
  match v with
  | Some (Str s') => String.eqb s' s
  | _ => false
  end.

(** Truthiness of a string: only the empty string is falsy. *)
Definition truthy_string (s : string) : bool := negb (String.eqb s "").

(** Truthiness of a property read ([undefined] is falsy). *)
Definition truthy (v : option value) : bool :=
  match v with
  | None => false
  | Some (Str s) => truthy_string s
  | Some (Obj _) => true
  end.

(** String conversion, as done by [getElementById] and template literals. *)
Definition to_text (v : value) : string :=
  match v with Str s => s | Obj t => t end.

(** Members every object literal inherits, with their string conversion. *)
Definition object_prototype : list (string * string) :=
  [ ("constructor", "function Object() { [native code] }");
    ("__defineGetter__", "function __defineGetter__() { [native code] }");
    ("__defineSetter__", "function __defineSetter__() { [native code] }");
    ("hasOwnProperty", "function hasOwnProperty() { [native code] }");
    ("__lookupGetter__", "function __lookupGetter__() { [native code] }");
    ("__lookupSetter__", "function __lookupSetter__() { [native code] }");
    ("isPrototypeOf", "function isPrototypeOf() { [native code] }");
    ("propertyIsEnumerable", "function propertyIsEnumerable() { [native code] }");
    ("toString", "function toString() { [native code] }");
    ("valueOf", "function valueOf() { [native code] }");
    ("toLocaleString", "function toLocaleString() { [native code] }");
    ("__proto__", "[object Object]") ].

(** [s] between double quotes, as the template literals of the log messages
    print it. *)
Definition quoted (s : string) : string :=
  String (Ascii.ascii_of_nat 34) (s ++ String (Ascii.ascii_of_nat 34) EmptyString).

Fixpoint assoc (key : string) (l : list (string * string)) : option string :=
  match l with
  | [] => None
  | (k, v) :: rest => if String.eqb k key then Some v else assoc key rest
  end.

(** [obj[key]] for an object literal with the given own entries. *)
Definition read (own : list (string * string)) (key : string) : option value :=
  match assoc key own with
  | Some s => Some (Str s)
  | None =>
      match assoc key object_prototype with
      | Some t => Some (Obj t)
      | None => None
      end
  end.

End Js.

(** ** StickyNavController *)

Module StickyNav.

(** *** Static tables *)

(** [sectionMap]: dev-target value to section id. *)
Definition sectionMap : list (string * string) :=
  [ ("overview", "overview-section");
    ("floor-plans", "floor-plans-section");
    ("amentities", "amentities-section");
    ("personalisation", "personalization-section");
    ("browse-homes", "lots-section");
    ("process", "process-section") ].

(** [sectionOrder]: dev-target values in page order. *)
Definition sectionOrder : list string :=
  [ "overview"; "floor-plans"; "amentities"; "personalisation"; "browse-homes" ].

(** [this.sectionMap[key]] *)
Definition sectionMap_get (key : string) : option Js.value :=
  Js.read sectionMap key.

(** [getDevTargetBySectionId]: [sectionOrder.find(...) ?? null]. *)
Definition getDevTargetBySectionId (sectionId : string) : option string :=
  List.find (fun key => Js.strict_eq_string (sectionMap_get key) sectionId)
            sectionOrder.

(** Position of a name in [sectionOrder]. *)
Fixpoint index_in (l : list string) (t : string) : option nat :=
  match l with
  | [] => None
  | x :: rest =>
      if String.eqb x t then Some 0%nat
      else option_map S (index_in rest t)
  end.

Definition order_index (t : string) : option nat := index_in sectionOrder t.

(** *** DOM data *)

(** The scrollable strip found by [link.closest('[dev-target="tab-left"]')]. *)
Record Strip := {
  strip_id : nat;
  strip_offsetWidth : Z;
  strip_scrollWidth : Z
}.

(** One element of [this.links]. *)
Record Link := {
  dev_target : string;            (* getAttribute('dev-target') *)
  is_active : bool;               (* classList.contains('is-active') *)
  tab_header : option Z;          (* closest('.tab-header')?.offsetHeight *)
  tab_left : option Strip;        (* closest('[dev-target="tab-left"]') *)
  offsetLeft : Z;
  offsetWidth : Z
}.

(** What a handler reads from [window] and [document] when it runs. *)
Record Page := {
  innerWidth : Z;
  scrollY : float;
  (* section id -> getBoundingClientRect().top, for ids present in the DOM *)
  sections : gmap string float
}.

Definition getElementById (p : Page) (id : string) : option float :=
  sections p !! id.

Inductive Effect :=
| PreventDefault
| ConsoleError (msg : string)
| WindowScrollTo (top : float)
| StripScrollTo (strip : nat) (left : Q).

(** An [IntersectionObserverEntry], as far as the callback reads it. *)
Record Entry := {
  target_id : string;
  isIntersecting : bool
}.

Record State := {
  links : list Link;
  visibleSections : gset string;
  observer : bool;                (* this.observer !== null *)
  frame_pending : bool;           (* the requestAnimationFrame callback of init *)
  effects : list Effect
}.

Definition set_active (b : bool) (l : Link) : Link :=
  {| dev_target := dev_target l; is_active := b;
     tab_header := tab_header l; tab_left := tab_left l;
     offsetLeft := offsetLeft l; offsetWidth := offsetWidth l |}.

(** *** scrollLinkIntoStrip *)

Definition targetScrollLeft (l : Link) (strip : Strip) : Q :=
  (inject_Z (offsetLeft l) + inject_Z (offsetWidth l) / 2
   - inject_Z (strip_offsetWidth strip) / 2)%Q.

Definition maxScroll (strip : Strip) : Q :=
  inject_Z (strip_scrollWidth strip - strip_offsetWidth strip).

(** The [left] handed to [strip.scrollTo]. *)
Definition strip_left (l : Link) (strip : Strip) : Q :=
  Qmin (Qmax 0 (targetScrollLeft l strip)) (maxScroll strip).

Definition scrollLinkIntoStrip (p : Page) (l : Link) : list Effect :=
  if (innerWidth p >? 767)%Z then []
  else match tab_left l with
       | None => []
       | Some strip => [StripScrollTo (strip_id strip) (strip_left l strip)]
       end.

(** The same function as bundled in [dist/index.js], built before the clamp
    was added to the source. *)
Definition scrollLinkIntoStrip_bundle (p : Page) (l : Link) : list Effect :=
  if (innerWidth p >? 767)%Z then []
  else match tab_left l with
       | None => []
       | Some strip =>
           [StripScrollTo (strip_id strip)
              (inject_Z (offsetLeft l) - inject_Z (strip_offsetWidth strip) / 2
               + inject_Z (offsetWidth l) / 2)%Q]
       end.

(** *** setActiveLink *)

(** One iteration of the [forEach]: the link after [classList.toggle], and
    the scroll request it makes. *)
Definition setActiveLink_step (p : Page) (targetName : string) (l : Link)
  : Link * list Effect :=
  let isActive := String.eqb (dev_target l) targetName in
  (set_active isActive l,
   if isActive then scrollLinkIntoStrip p l else []).

Definition setActiveLink (p : Page) (targetName : string) (s : State) : State :=
  let steps := map (setActiveLink_step p targetName) (links s) in
  {| links := map fst steps;
     visibleSections := visibleSections s;
     observer := observer s;
     frame_pending := frame_pending s;
     effects := effects s ++ concat (map snd steps) |}.

Definition log (e : list Effect) (s : State) : State :=
  {| links := links s;
     visibleSections := visibleSections s;
     observer := observer s;
     frame_pending := frame_pending s;
     effects := effects s ++ e |}.

(** *** Click handler (setupClickHandlers) *)

Definition navHeight (l : Link) : Z :=
  match tab_header l with Some h => h | None => 0%Z end.

(** An integer of the DOM as a JavaScript number. *)
Definition float_of_Z (z : Z) : float :=
  if (z <? 0)%Z then PrimFloat.opp (PrimFloat.of_uint63 (Uint63.of_Z (- z)))
  else PrimFloat.of_uint63 (Uint63.of_Z z).

(** [section.getBoundingClientRect().top + window.scrollY - navHeight], in
    binary64 arithmetic, left to right. *)
Definition sectionTop (p : Page) (l : Link) (rect_top : float) : float :=
  PrimFloat.sub (PrimFloat.add rect_top (scrollY p)) (float_of_Z (navHeight l)).

Definition click_handler (p : Page) (link : Link) (s : State) : State :=
  let s := log [PreventDefault] s in
  let target := dev_target link in
  if negb (Js.truthy_string target) then s
  else
    let sectionId := sectionMap_get target in
    if negb (Js.truthy sectionId) then s
    else match sectionId with
         | None => s
         | Some v =>
             let id := Js.to_text v in
             match getElementById p id with
             | None =>
                 log [ConsoleError ("StickyNavController: Section #" ++ id
                                    ++ " not found.")] s
             | Some rect_top =>
                 let s := log [WindowScrollTo (sectionTop p link rect_top)] s in
                 setActiveLink p target s
             end
         end.

(** A click on the [i]-th link: its listener runs on the link as it is now. *)
Definition click (p : Page) (i : nat) (s : State) : State :=
  match links s !! i with
  | None => s
  | Some link => click_handler p link s
  end.

(** *** Observer callback (setupScrollObserver) *)

Definition apply_entry (vis : gset string) (entry : Entry) : gset string :=
  match getDevTargetBySectionId (target_id entry) with
  | None => vis
  | Some devTarget =>
      if negb (Js.truthy_string devTarget) then vis
      else if isIntersecting entry then {[devTarget]} ∪ vis
           else vis ∖ {[devTarget]}
  end.

Definition apply_entries (entries : list Entry) (vis : gset string)
  : gset string :=
  fold_left apply_entry entries vis.

(** [this.sectionOrder.find((t) => this.visibleSections.has(t))] *)
Definition activeTarget (vis : gset string) : option string :=
  List.find (fun t => bool_decide (t ∈ vis)) sectionOrder.

Definition with_visible (vis : gset string) (s : State) : State :=
  {| links := links s;
     visibleSections := vis;
     observer := observer s;
     frame_pending := frame_pending s;
     effects := effects s |}.

Definition observer_callback (p : Page) (entries : list Entry) (s : State)
  : State :=
  let s := with_visible (apply_entries entries (visibleSections s)) s in
  match activeTarget (visibleSections s) with
  | None => s
  | Some t => if Js.truthy_string t then setActiveLink p t s else s
  end.

(** *** init, its animation frame, destroy *)

Definition observe_errors (p : Page) : list Effect :=
  flat_map
    (fun target =>
       match sectionMap_get target with
       | Some v =>
           if Js.truthy (Some v) then
             match getElementById p (Js.to_text v) with
             | Some _ => []
             | None =>
                 [ConsoleError ("StickyNavController: Section #"
                                ++ Js.to_text v ++ " not found in DOM.")]
             end
           else []
       | None => []
       end)
    sectionOrder.

(** [init] on the links that [querySelectorAll('.tab-links[dev-target]')]
    returns. *)
Definition init (p : Page) (markup : list Link) : State :=
  match markup with
  | [] =>
      {| links := []; visibleSections := ∅; observer := false;
         frame_pending := false;
         effects := [ConsoleError "StickyNavController: No tab links found."] |}
  | _ =>
      {| links := markup; visibleSections := ∅; observer := true;
         frame_pending := true;
         effects := observe_errors p |}
  end.

(** Index of the link the animation-frame callback picks. *)
Fixpoint find_index (f : Link -> bool) (l : list Link) : option nat :=
  match l with
  | [] => None
  | x :: rest => if f x then Some 0%nat else option_map S (find_index f rest)
  end.

Definition initialActive (ls : list Link) : option nat :=
  match find_index is_active ls with
  | Some i => Some i
  | None => match ls with [] => None | _ => Some 0%nat end
  end.

Definition animation_frame (p : Page) (s : State) : State :=
  if frame_pending s then
    match initialActive (links s) with
    | None =>
        {| links := links s; visibleSections := visibleSections s;
           observer := observer s; frame_pending := false;
           effects := effects s |}
    | Some i =>
        match links s !! i with
        | None =>
            {| links := links s; visibleSections := visibleSections s;
               observer := observer s; frame_pending := false;
               effects := effects s |}
        | Some l =>
            {| links := <[i := set_active true l]> (links s);
               visibleSections := visibleSections s;
               observer := observer s; frame_pending := false;
               effects := effects s ++ scrollLinkIntoStrip p (set_active true l) |}
        end
    end
  else s.

Definition destroy (s : State) : State :=
  {| links := links s; visibleSections := ∅; observer := false;
     frame_pending := frame_pending s; effects := effects s |}.

(** *** The controller as a transition system *)

Inductive Event :=
| Frame (p : Page)
| Click (p : Page) (i : nat)
| Intersections (p : Page) (entries : list Entry)
| Destroy.

Definition step (s : State) (e : Event) : State :=
  match e with
  | Frame p => animation_frame p s
  | Click p i => click p i s
  | Intersections p entries =>
      if observer s then observer_callback p entries s else s
  | Destroy => destroy s
  end.

Definition run (s : State) (es : list Event) : State := fold_left step es s.

(** Number of links that carry the [is-active] class. *)
Definition count_active (ls : list Link) : nat :=
  length (filter (λ l, is_active l = true) ls).

Definition active_count (s : State) : nat := count_active (links s).

(** *** Vocabulary of the specification *)

(** The declared section targets, as a set. *)
Definition declared : gset string := list_to_set sectionOrder.

(** [t] is the member of [vis] with the lowest index in [sectionOrder]. *)
Definition lowest_visible (vis : gset string) (t : string) : Prop :=
  t ∈ vis ∧
  ∃ i, order_index t = Some i ∧
       ∀ u j, u ∈ vis → order_index u = Some j → (i ≤ j)%nat.

(** Target names are pairwise distinct and at most one link is active. *)
Definition nav_invariant (s : State) : Prop :=
  NoDup (map dev_target (links s)) ∧ (active_count s ≤ 1)%nat.

(** The centring offset lies in the scroll range of the strip. *)
Definition in_scroll_range (strip : Strip) (left : Q) : Prop :=
  (0 <= left)%Q ∧ (left <= maxScroll strip)%Q.

(** *** Sample pages *)

Definition entry (id : string) (b : bool) : Entry :=
  {| target_id := id; isIntersecting := b |}.

Definition sample_strip : Strip :=
  {| strip_id := 0; strip_offsetWidth := 300; strip_scrollWidth := 900 |}.

Definition sample_link (target : string) (active : bool) (left : Z) : Link :=
  {| dev_target := target; is_active := active;
     tab_header := Some 64%Z; tab_left := Some sample_strip;
     offsetLeft := left; offsetWidth := 180 |}.

Definition sample_links : list Link :=
  [ sample_link "overview" true 0;
    sample_link "floor-plans" false 180;
    sample_link "amentities" false 360;
    sample_link "personalisation" false 540;
    sample_link "browse-homes" false 720 ].

(** A phone-sized page on which every mapped section but [process-section]
    exists. *)
Definition sample_page : Page :=
  {| innerWidth := 390;
     scrollY := 100%float;
     sections := list_to_map
                   [ ("overview-section", 20%float);
                     ("floor-plans-section", 900%float);
                     ("amentities-section", 1800%float);
                     ("personalization-section", 2700%float);
                     ("lots-section", 3600%float) ] |}.

(** Two links that carry the same target name. *)
Definition twin_links : list Link :=
  [ sample_link "overview" false 0; sample_link "overview" false 180 ].

(** Markup in which two links are already marked active. *)
Definition double_active_links : list Link :=
  [ sample_link "overview" true 0; sample_link "floor-plans" true 180 ].

(** A link whose target name is not in the table. *)
Definition unmapped_links : list Link :=
  [ sample_link "gallery" false 0 ].

(** A strip with a one-pixel border and no overflow: its [offsetWidth]
    exceeds its [scrollWidth]. *)
Definition bordered_strip : Strip :=
  {| strip_id := 0; strip_offsetWidth := 302; strip_scrollWidth := 300 |}.

Definition bordered_link : Link :=
  {| dev_target := "overview"; is_active := false;
     tab_header := Some 64%Z; tab_left := Some bordered_strip;
     offsetLeft := 0; offsetWidth := 100 |}.

(** A link named after a member that every object inherits, next to an
    ordinary one. *)
Definition inherited_links : list Link :=
  [ sample_link "overview" true 0; sample_link "__proto__" false 180 ].

(** The sample page with one more element, whose id is the text of
    [Object.prototype]. *)
Definition object_page : Page :=
  {| innerWidth := innerWidth sample_page;
     scrollY := scrollY sample_page;
     sections := <["[object Object]" := 500%float]> (sections sample_page) |}.

(** A page scrolled by a fraction of a pixel, with a section a fraction of a
    pixel below the viewport top. *)
Definition fractional_page : Page :=
  {| innerWidth := 390;
     scrollY := 0.2%float;
     sections := list_to_map [ ("overview-section", 0.1%float) ] |}.

(** A link outside any [.tab-header] and any strip. *)
Definition bare_link : Link :=
  {| dev_target := "overview"; is_active := false;
     tab_header := None; tab_left := None;
     offsetLeft := 0; offsetWidth := 100 |}.

Definition started (markup : list Link) : State :=
  run (init sample_page markup) [Frame sample_page].

(** *** Further vocabulary *)

(** What the last entry of a batch for section [id] reports, if the batch has
    one. *)
Fixpoint last_report (id : string) (entries : list Entry) : option bool :=
  match entries with
  | [] => None
  | e :: rest =>
      match last_report id rest with
      | Some b => Some b
      | None =>
          if String.eqb (target_id e) id then Some (isIntersecting e) else None
      end
  end.

Definition is_strip_scroll (e : Effect) : bool :=
  match e with StripScrollTo _ _ => true | _ => false end.

Definition is_window_scroll (e : Effect) : bool :=
  match e with WindowScrollTo _ => true | _ => false end.

(** The viewport width an event's handler reads, if it reads one. *)
Definition event_width (e : Event) : option Z :=
  match e with
  | Frame p | Click p _ | Intersections p _ => Some (innerWidth p)
  | Destroy => None
  end.

(** The DOM holds the section of every ordered target. *)
Definition all_sections_present (p : Page) : Prop :=
  Forall (λ name, ∃ id, sectionMap_get name = Some (Js.Str id) ∧
                        is_Some (getElementById p id))
         sectionOrder.

(** A desktop-sized copy of the sample page. *)
Definition desktop_page : Page :=
  {| innerWidth := 1280; scrollY := scrollY sample_page;
     sections := sections sample_page |}.

End StickyNav.

(** ** A document tree, as far as the gallery queries it *)

Module Dom.

Record Elem := {
  uid : nat;                      (* identity of the element *)
  tag : string;                   (* lower-case tag name *)
  attr_dev_target : option string;
  classes : list string;
  src : string;
  alt : string;
  srcset : string;
  sizes : string
}.

Inductive Node := El (e : Elem) (children : list Node).

Definition elem (n : Node) : Elem := match n with El e _ => e end.
Definition children (n : Node) : list Node := match n with El _ cs => cs end.

(** Elements of a subtree in document (pre-)order. *)
Fixpoint elements (n : Node) : list Elem :=
  match n with
  | El e cs => e :: flat_map elements cs
  end.

Definition option_eqb (o : option string) (s : string) : bool :=
  match o with Some x => String.eqb x s | None => false end.

(** [document.querySelectorAll('img[dev-target="a"]')] *)
Definition is_img_with (a : string) (e : Elem) : bool :=
  String.eqb (tag e) "img" && option_eqb (attr_dev_target e) a.

Definition querySelectorAll_img (a : string) (doc : Node) : list Elem :=
  List.filter (is_img_with a) (elements doc).

(** [document.querySelectorAll('[dev-target="a"]')] *)
Definition querySelectorAll_dev_target (a : string) (doc : Node) : list Elem :=
  List.filter (fun e => option_eqb (attr_dev_target e) a) (elements doc).

(** A class selector [".name"] against one element. *)
Definition matches_class (selector : string) (e : Elem) : bool :=
  match selector with
  | String "."%char name => existsb (String.eqb name) (classes e)
  | _ => false
  end.

(** [document.querySelector(selector)] for a class selector. *)
Definition querySelector_class (selector : string) (doc : Node) : option Elem :=
  List.find (matches_class selector) (elements doc).

(** Number of elements of the subtrees [cs] that satisfy [P]. *)
Definition matches (P : Elem -> bool) (cs : list Node) : nat :=
  length (List.filter P (flat_map elements cs)).

(** The node reached from [n] along child indices [path]. *)
Fixpoint node_at (path : list nat) (n : Node) : option Node :=
  match path with
  | [] => Some n
  | i :: rest =>
      match nth_error (children n) i with
      | Some c => node_at rest c
      | None => None
      end
  end.

(** Identities of the nodes on the way from [n] down to the node at [path],
    both ends included. *)
Fixpoint chain (path : list nat) (n : Node) : list nat :=
  uid (elem n) ::
  match path with
  | [] => []
  | i :: rest =>
      match nth_error (children n) i with
      | Some c => chain rest c
      | None => []
      end
  end.

(** The elements on the way from [n] down to the node at [path], both ends
    included: the node at [path] and its ancestors, outermost first. *)
Fixpoint path_elems (path : list nat) (n : Node) : list Elem :=
  elem n ::
  match path with
  | [] => []
  | i :: rest =>
      match nth_error (children n) i with
      | Some c => path_elems rest c
      | None => []
      end
  end.

(** [target.closest('img') !== null] for the element at [path]. *)
Definition closest_img (path : list nat) (doc : Node) : bool :=
  existsb (fun e => String.eqb (tag e) "img") (path_elems path doc).

Fixpoint replace_nth (i : nat) (c : Node) (cs : list Node) : list Node :=
  match cs, i with
  | [], _ => []
  | _ :: rest, O => c :: rest
  | x :: rest, S j => x :: replace_nth j c rest
  end.

(** A child-list mutation: the children of the node at [path] become
    [f children]. *)
Fixpoint set_children (path : list nat) (f : list Node -> list Node) (n : Node)
  : Node :=
  match path with
  | [] => El (elem n) (f (children n))
  | i :: rest =>
      match nth_error (children n) i with
      | Some c => El (elem n) (replace_nth i (set_children rest f c) (children n))
      | None => n
      end
  end.

End Dom.

(** ** GalleryController *)

Module Gallery.

Record GalleryConfig := {
  trigger : string;
  imageAttr : string;
  containerClass : string
}.

Definition GALLERY_CONFIGS : list GalleryConfig :=
  [ {| trigger := "image-gallery";
       imageAttr := "hidden-main-gallery-images";
       containerClass := ".hidden-main-gallery-collection" |};
    {| trigger := "community-gallery";
       imageAttr := "hidden-community-gallery-images";
       containerClass := ".hidden-community-gallery-collection" |} ].

(** An [img] built by [open] inside a slide. *)
Record SlideImg := {
  slide_src : string;
  slide_alt : string;
  slide_srcset : string;
  slide_sizes : string
}.

(** An overlay element created by [open]. *)
Record Overlay := {
  is_open : bool;                 (* classList.contains('is-open') *)
  main_slides : list SlideImg;    (* .hb-gallery-swiper .swiper-wrapper *)
  thumb_slides : list SlideImg;   (* .hb-gallery-thumbs .swiper-wrapper *)
  transitionend_once : nat        (* pending onTransitionEnd listeners *)
}.

(** What [new Swiper(selector, options)] returns; the library is external
    and only the options the controller passes are kept, with the number of
    elements of the document that the selector matched when the constructor
    ran.  The selector is resolved against the whole document: when it matches
    more than one element the constructor builds one instance per element and
    returns them as an array, which has no [destroy] method.  Each overlay
    holds one element of each slider class and the page's own markup is taken
    to hold none, so a selector matches one element per attached overlay. *)
Record Swiper := {
  swiper_el : string;
  initialSlide : nat;
  loop : bool;
  matched : nat
}.

Definition is_array (sw : Swiper) : bool := (1 <? matched sw)%nat.

(** A registered [MutationObserver] with its [refresh] closure. *)
Record Observer := {
  obs_target : nat;               (* the observed container element *)
  obs_config : GalleryConfig
}.

Inductive Effect :=
| ConsoleError (msg : string)
| SwiperDestroy (sw : Swiper)
| UncaughtTypeError (msg : string).

Record State := {
  doc : Dom.Node;                           (* the page markup *)
  caches : gmap string (list Dom.Elem);
  observers : list Observer;
  bound : list (nat * GalleryConfig);       (* click listeners on triggers *)
  overlay : option nat;
  swiper : option Swiper;
  thumbsSwiper : option Swiper;
  heap : gmap nat Overlay;                  (* overlay elements ever created *)
  body : list nat;                          (* overlays attached to body *)
  body_overflow : string;
  frames : nat;                             (* queued requestAnimationFrame *)
  next_overlay : nat;
  effects : list Effect
}.

(** *** observeImages *)

Definition refresh (config : GalleryConfig) (s : State) : State :=
  {| doc := doc s;
     caches := <[trigger config := Dom.querySelectorAll_img (imageAttr config) (doc s)]>
                 (caches s);
     observers := observers s; bound := bound s; overlay := overlay s;
     swiper := swiper s; thumbsSwiper := thumbsSwiper s; heap := heap s;
     body := body s; body_overflow := body_overflow s; frames := frames s;
     next_overlay := next_overlay s; effects := effects s |}.

Definition log (e : list Effect) (s : State) : State :=
  {| doc := doc s; caches := caches s;
     observers := observers s; bound := bound s; overlay := overlay s;
     swiper := swiper s; thumbsSwiper := thumbsSwiper s; heap := heap s;
     body := body s; body_overflow := body_overflow s; frames := frames s;
     next_overlay := next_overlay s; effects := effects s ++ e |}.

Definition add_observer (o : Observer) (s : State) : State :=
  {| doc := doc s; caches := caches s;
     observers := observers s ++ [o]; bound := bound s; overlay := overlay s;
     swiper := swiper s; thumbsSwiper := thumbsSwiper s; heap := heap s;
     body := body s; body_overflow := body_overflow s; frames := frames s;
     next_overlay := next_overlay s; effects := effects s |}.

Definition observeImages (config : GalleryConfig) (s : State) : State :=
  let s := refresh config s in
  match Dom.querySelector_class (containerClass config) (doc s) with
  | None =>
      log [ConsoleError ("GalleryController: "
                         ++ Js.quoted (containerClass config)
                         ++ " not found.")] s
  | Some container =>
      add_observer {| obs_target := Dom.uid container; obs_config := config |} s
  end.

(** *** bindTrigger *)

Definition bindTrigger (config : GalleryConfig) (s : State) : State :=
  let triggers := Dom.querySelectorAll_dev_target (trigger config) (doc s) in
  {| doc := doc s; caches := caches s;
     observers := observers s;
     bound := bound s ++ map (fun t => (Dom.uid t, config)) triggers;
     overlay := overlay s;
     swiper := swiper s; thumbsSwiper := thumbsSwiper s; heap := heap s;
     body := body s; body_overflow := body_overflow s; frames := frames s;
     next_overlay := next_overlay s; effects := effects s |}.

(** *** close *)

Definition close_overlay (o : Overlay) : Overlay :=
  {| is_open := false;
     main_slides := main_slides o; thumb_slides := thumb_slides o;
     transitionend_once := S (transitionend_once o) |}.

Definition close (s : State) : State :=
  match overlay s with
  | None => s
  | Some u =>
      {| doc := doc s; caches := caches s;
         observers := observers s; bound := bound s; overlay := overlay s;
         swiper := swiper s; thumbsSwiper := thumbsSwiper s;
         heap := alter close_overlay u (heap s);
         body := body s; body_overflow := ""; frames := frames s;
         next_overlay := next_overlay s; effects := effects s |}
  end.

(** The listener [onTransitionEnd]: it reads [this.overlay], [this.swiper]
    and [this.thumbsSwiper] when it runs, not when [close] registered it.
    Calling [destroy] on an array of instances raises a [TypeError], which ends
    the listener at that statement. *)
Definition destroy_thumbs (s : State) : State + State :=
  match thumbsSwiper s with
  | None => inl s
  | Some t =>
      if is_array t then
        inr (log [UncaughtTypeError "this.thumbsSwiper?.destroy is not a function"] s)
      else
        inl {| doc := doc s; caches := caches s;
               observers := observers s; bound := bound s;
               overlay := overlay s;
               swiper := swiper s; thumbsSwiper := None;
               heap := heap s; body := body s;
               body_overflow := body_overflow s; frames := frames s;
               next_overlay := next_overlay s;
               effects := effects s ++ [SwiperDestroy t] |}
  end.

Definition destroy_main (s : State) : State + State :=
  match swiper s with
  | None => inl s
  | Some m =>
      if is_array m then
        inr (log [UncaughtTypeError "this.swiper?.destroy is not a function"] s)
      else
        inl {| doc := doc s; caches := caches s;
               observers := observers s; bound := bound s;
               overlay := overlay s;
               swiper := None; thumbsSwiper := thumbsSwiper s;
               heap := heap s; body := body s;
               body_overflow := body_overflow s; frames := frames s;
               next_overlay := next_overlay s;
               effects := effects s ++ [SwiperDestroy m] |}
  end.

Definition remove_overlay (s : State) : State :=
  {| doc := doc s; caches := caches s;
     observers := observers s; bound := bound s;
     overlay := None;
     swiper := swiper s; thumbsSwiper := thumbsSwiper s;
     heap := heap s;
     body := match overlay s with
             | Some u => List.filter (fun x => negb (Nat.eqb x u)) (body s)
             | None => body s
             end;
     body_overflow := body_overflow s; frames := frames s;
     next_overlay := next_overlay s; effects := effects s |}.

Definition onTransitionEnd (s : State) : State :=
  match destroy_thumbs s with
  | inr thrown => thrown
  | inl s =>
      match destroy_main s with
      | inr thrown => thrown
      | inl s => remove_overlay s
      end
  end.

(** *** open *)

Definition main_slide (img : Dom.Elem) : SlideImg :=
  {| slide_src := Dom.src img;
     slide_alt := Dom.alt img;
     slide_srcset := if Js.truthy_string (Dom.srcset img) then Dom.srcset img else "";
     slide_sizes := if Js.truthy_string (Dom.sizes img) then Dom.sizes img else "" |}.

Definition thumb_slide (img : Dom.Elem) : SlideImg :=
  {| slide_src := Dom.src img; slide_alt := Dom.alt img;
     slide_srcset := ""; slide_sizes := "" |}.

Definition open (imgs : list Dom.Elem) (startIndex : nat) (s : State) : State :=
  let s := close s in
  let u := next_overlay s in
  let element :=
    {| is_open := false;
       main_slides := map main_slide imgs;
       thumb_slides := map thumb_slide imgs;
       transitionend_once := 0 |} in
  let thumbs :=
    {| swiper_el := ".hb-gallery-thumbs"; initialSlide := 0; loop := false;
       matched := length (body s ++ [u]) |} in
  let main :=
    {| swiper_el := ".hb-gallery-swiper"; initialSlide := startIndex;
       loop := (1 <? length imgs)%nat;
       matched := length (body s ++ [u]) |} in
  {| doc := doc s; caches := caches s;
     observers := observers s; bound := bound s;
     overlay := Some u;
     swiper := Some main; thumbsSwiper := Some thumbs;
     heap := <[u := element]> (heap s);
     body := body s ++ [u];
     body_overflow := "hidden";
     frames := S (frames s);
     next_overlay := S u; effects := effects s |}.

(** The click listener that [bindTrigger] attaches for [config];
    [on_img] is [e.target.closest('img') !== null]. *)
Definition trigger_listener (config : GalleryConfig) (on_img : bool) (s : State)
  : State :=
  if negb on_img then s
  else
    let imgs := default [] (caches s !! trigger config) in
    match imgs with
    | [] =>
        log [ConsoleError ("GalleryController: No images cached for "
                           ++ Js.quoted (trigger config) ++ ".")] s
    | _ => open imgs 0 s
    end.

(** *** init and destroy *)

Definition init_config (s : State) (config : GalleryConfig) : State :=
  let s :=
    {| doc := doc s; caches := <[trigger config := []]> (caches s);
       observers := observers s; bound := bound s; overlay := overlay s;
       swiper := swiper s; thumbsSwiper := thumbsSwiper s; heap := heap s;
       body := body s; body_overflow := body_overflow s; frames := frames s;
       next_overlay := next_overlay s; effects := effects s |} in
  bindTrigger config (observeImages config s).

Definition fresh (d : Dom.Node) : State :=
  {| doc := d; caches := ∅; observers := []; bound := []; overlay := None;
     swiper := None; thumbsSwiper := None; heap := ∅; body := [];
     body_overflow := ""; frames := 0; next_overlay := 0; effects := [] |}.

Definition init (d : Dom.Node) : State :=
  fold_left init_config GALLERY_CONFIGS (fresh d).

Definition destroy (s : State) : State :=
  close
    {| doc := doc s; caches := caches s;
       observers := []; bound := bound s; overlay := overlay s;
       swiper := swiper s; thumbsSwiper := thumbsSwiper s; heap := heap s;
       body := body s; body_overflow := body_overflow s; frames := frames s;
       next_overlay := next_overlay s; effects := effects s |}.

(** *** Browser events *)

(** A child-list mutation of the page at [path], followed by the delivery of
    its record to the observers whose target is the mutated node or one of
    its ancestors ([{ childList: true, subtree: true }]). *)
Definition notified (path : list nat) (d : Dom.Node) (o : Observer) : bool :=
  existsb (Nat.eqb (obs_target o)) (Dom.chain path d).

Definition with_doc (d : Dom.Node) (s : State) : State :=
  {| doc := d; caches := caches s;
     observers := observers s; bound := bound s; overlay := overlay s;
     swiper := swiper s; thumbsSwiper := thumbsSwiper s; heap := heap s;
     body := body s; body_overflow := body_overflow s; frames := frames s;
     next_overlay := next_overlay s; effects := effects s |}.

Definition mutate (path : list nat) (f : list Dom.Node -> list Dom.Node)
           (s : State) : State :=
  match Dom.node_at path (doc s) with
  | None => s
  | Some _ =>
      let watching := List.filter (notified path (doc s)) (observers s) in
      fold_left (fun s o => refresh (obs_config o) s) watching
                (with_doc (Dom.set_children path f (doc s)) s)
  end.

Definition set_open (o : Overlay) : Overlay :=
  {| is_open := true;
     main_slides := main_slides o; thumb_slides := thumb_slides o;
     transitionend_once := transitionend_once o |}.

(** One queued frame callback: [this.overlay?.classList.add('is-open')]. *)
Definition animation_frame (s : State) : State :=
  match frames s with
  | O => s
  | S n =>
      {| doc := doc s; caches := caches s;
         observers := observers s; bound := bound s; overlay := overlay s;
         swiper := swiper s; thumbsSwiper := thumbsSwiper s;
         heap := match overlay s with
                 | Some u => alter set_open u (heap s)
                 | None => heap s
                 end;
         body := body s; body_overflow := body_overflow s; frames := n;
         next_overlay := next_overlay s; effects := effects s |}
  end.

Definition clear_listeners (o : Overlay) : Overlay :=
  {| is_open := is_open o;
     main_slides := main_slides o; thumb_slides := thumb_slides o;
     transitionend_once := 0 |}.

(** [transitionend] dispatched on overlay element [u]: every pending
    once-listener runs, and is removed. *)
Definition transitionend (u : nat) (s : State) : State :=
  match heap s !! u with
  | None => s
  | Some o =>
      let s' :=
        {| doc := doc s; caches := caches s;
           observers := observers s; bound := bound s; overlay := overlay s;
           swiper := swiper s; thumbsSwiper := thumbsSwiper s;
           heap := alter clear_listeners u (heap s);
           body := body s; body_overflow := body_overflow s; frames := frames s;
           next_overlay := next_overlay s; effects := effects s |} in
      Nat.iter (transitionend_once o) onTransitionEnd s'
  end.

(** The click listeners that a click on the element at [target] reaches: the
    event bubbles from the target through its ancestors, and on each element
    the listeners run in the order [init] attached them. *)
Definition listeners_reached (target : list nat) (s : State)
  : list (nat * GalleryConfig) :=
  flat_map (fun t => List.filter (fun b => Nat.eqb (fst b) t) (bound s))
           (rev (Dom.chain target (doc s))).

(** A click on the page element at [target]. *)
Definition click (target : list nat) (s : State) : State :=
  match Dom.node_at target (doc s) with
  | None => s
  | Some _ =>
      fold_left
        (fun s b => trigger_listener (snd b) (Dom.closest_img target (doc s)) s)
        (listeners_reached target s) s
  end.

Inductive Event :=
| Mutation (path : list nat) (f : list Dom.Node -> list Dom.Node)
| Click (target : list nat)        (* a click on the page element at that path *)
| CloseRequest                    (* Escape, close button, backdrop *)
| TransitionEnd (u : nat)
| Frame
| Destroy.

Definition step (s : State) (e : Event) : State :=
  match e with
  | Mutation path f => mutate path f s
  | Click target => click target s
  | CloseRequest => close s
  | TransitionEnd u => transitionend u s
  | Frame => animation_frame s
  | Destroy => destroy s
  end.

Definition run (s : State) (es : list Event) : State := fold_left step es s.

(** *** Vocabulary of the specification *)

(** The cache of a gallery, as the click listener reads it. *)
Definition cache (config : GalleryConfig) (s : State) : list Dom.Elem :=
  default [] (caches s !! trigger config).

(** Every registered observer refreshes one of [GALLERY_CONFIGS]. *)
Definition configs_known (s : State) : Prop :=
  Forall (λ o, In (obs_config o) GALLERY_CONFIGS) (observers s).

(** [u] is an attached overlay element that the controller no longer
    refers to. *)
Definition orphaned (u : nat) (s : State) : Prop :=
  In u (body s) ∧ overlay s ≠ Some u ∧ (u < next_overlay s)%nat.

(** The source images shown by the overlay element [u]. *)
Definition shown (u : nat) (s : State) : option (list string) :=
  (λ o, map slide_src (main_slides o)) <$> heap s !! u.

(** *** A sample page *)

Definition element (u : nat) (t : string) (target : option string)
           (cls : list string) (source : string) : Dom.Elem :=
  {| Dom.uid := u; Dom.tag := t; Dom.attr_dev_target := target;
     Dom.classes := cls; Dom.src := source; Dom.alt := "";
     Dom.srcset := ""; Dom.sizes := "" |}.

Definition div (u : nat) (target : option string) (cls : list string)
           (cs : list Dom.Node) : Dom.Node :=
  Dom.El (element u "div" target cls "") cs.

Definition img (u : nat) (target : option string) (source : string) : Dom.Node :=
  Dom.El (element u "img" target [] source) [].

Definition main_img (u : nat) (source : string) : Dom.Node :=
  img u (Some "hidden-main-gallery-images") source.

(** html > body > [ main CMS list; main trigger; community CMS list;
    community trigger ]. *)
Definition sample_doc : Dom.Node :=
  Dom.El (element 0 "html" None [] "")
    [ Dom.El (element 1 "body" None [] "")
        [ div 2 None ["hidden-main-gallery-collection"]
            [ div 3 None ["w-dyn-items"]
                [ main_img 4 "kitchen.jpg"; main_img 5 "porch.jpg" ] ];
          div 6 (Some "image-gallery") [] [ img 7 None "hero.jpg" ];
          div 8 None ["hidden-community-gallery-collection"]
            [ img 9 (Some "hidden-community-gallery-images") "park.jpg" ];
          div 10 (Some "community-gallery") [] [ img 11 None "map.jpg" ] ] ].

(** The paths from [html] to the images inside the two triggers. *)
Definition main_trigger_img : list nat := [0; 1; 0]%nat.
Definition community_trigger_img : list nat := [0; 3; 0]%nat.

(** The path from [html] to the [w-dyn-items] list of the main gallery. *)
Definition main_list_path : list nat := [0; 0; 0]%nat.

Definition main_config : GalleryConfig :=
  {| trigger := "image-gallery";
     imageAttr := "hidden-main-gallery-images";
     containerClass := ".hidden-main-gallery-collection" |}.


(** One more matching image, appended to [body], outside every watched
    container. *)
Definition stray_image (cs : list Dom.Node) : list Dom.Node :=
  cs ++ [ main_img 30 "stray.jpg" ].

Definition three_more (cs : list Dom.Node) : list Dom.Node :=
  cs ++ [ main_img 20 "bath.jpg"; main_img 21 "yard.jpg"; main_img 22 "loft.jpg" ].

(** *** Further vocabulary *)

(** The controller's bookkeeping of overlay elements: attached overlays are
    distinct and older than the next one to be created, the current overlay is
    attached and exists, and the sliders exist exactly while there is a current
    overlay.  Without a current overlay none is attached; the two sliders were
    built against the same document; and single-instance sliders belong to the
    only attached overlay. *)
Definition consistent (s : State) : Prop :=
  NoDup (body s) ∧
  (∀ u, In u (body s) → (u < next_overlay s)%nat) ∧
  (∀ u, overlay s = Some u → In u (body s) ∧ is_Some (heap s !! u)) ∧
  (overlay s = None ↔ swiper s = None) ∧
  (overlay s = None ↔ thumbsSwiper s = None) ∧
  (overlay s = None → body s = []) ∧
  (∀ t m, thumbsSwiper s = Some t → swiper s = Some m →
          matched t = matched m) ∧
  (∀ m u, swiper s = Some m → is_array m = false → overlay s = Some u →
          body s = [u]).

(** Some observer refreshing the cache under [k] is notified of a mutation at
    [path]. *)
Definition refreshes (k : string) (path : list nat) (s : State) : Prop :=
  ∃ o, In o (observers s) ∧ notified path (doc s) o = true ∧
       trigger (obs_config o) = k.

(** The state between [open] and the end of the close transition, after [n]
    close requests: the overlay [u] is the only one attached, the sliders and
    the log are as [open] left them, and [n] listeners wait on the overlay. *)
Definition closing_after (s0 : State) (u n : nat) (c : State) : Prop :=
  overlay c = Some u ∧ body c = [u] ∧
  swiper c = swiper s0 ∧ thumbsSwiper c = thumbsSwiper s0 ∧
  effects c = effects s0 ∧
  (∃ o, heap c !! u = Some o ∧ transitionend_once o = n) ∧
  ((1 ≤ n)%nat → body_overflow c = "").

(** Number of close requests in a list of events. *)
Fixpoint close_requests (es : list Event) : nat :=
  match es with
  | [] => 0
  | CloseRequest :: rest => S (close_requests rest)
  | _ :: rest => close_requests rest
  end.

Definition is_console_error (e : Effect) : bool :=
  match e with ConsoleError _ => true | _ => false end.

End Gallery.

(** ** AccordionController *)

Module Accordion.

(** [items] is the static [NodeList] that [init] queries; an item is kept as
    its [is-active] class, the only thing the listeners touch.  [bound] tells
    whether [init] got as far as attaching the listeners. *)
Record State := {
  items : list bool;
  bound : bool;
  errors : list string
}.

Definition init (markup : list bool) : State :=
  match markup with
  | [] =>
      {| items := []; bound := false;
         errors := [("AccordionController: No [dev-target="
                     ++ Js.quoted "accordion-item"
                     ++ "] elements found.")%string] |}
  | _ => {| items := markup; bound := true; errors := [] |}
  end.

(** [mouseenter] on the [i]-th item: every item loses [is-active], then the
    hovered one gains it. *)
Definition mouseenter (i : nat) (s : State) : State :=
  if bound s then
    match items s !! i with
    | None => s
    | Some _ =>
        {| items := <[i := true]> (map (λ _, false) (items s));
           bound := bound s; errors := errors s |}
    end
  else s.

(** [mouseleave] on the [i]-th item. *)
Definition mouseleave (i : nat) (s : State) : State :=
  if bound s then
    match items s !! i with
    | None => s
    | Some _ =>
        {| items := <[i := false]> (items s);
           bound := bound s; errors := errors s |}
    end
  else s.

Inductive Event :=
| Enter (i : nat)
| Leave (i : nat).

Definition step (s : State) (e : Event) : State :=
  match e with
  | Enter i => mouseenter i s
  | Leave i => mouseleave i s
  end.

Definition run (s : State) (es : list Event) : State := fold_left step es s.

(** Number of marked items in a list of [is-active] flags. *)
Definition count (l : list bool) : nat := length (List.filter (λ b : bool, b) l).

Definition active_items (s : State) : nat := count (items s).

Definition is_enter (e : Event) : bool :=
  match e with Enter _ => true | Leave _ => false end.

End Accordion.

(** * Properties of the sticky navigation *)

Module NavFacts.
Import StickyNav.

(** ** The static tables *)

Lemma sectionOrder_truthy t :
  In t sectionOrder → Js.truthy_string t = true.
Proof.
  unfold sectionOrder. simpl.
  intros [<-|[<-|[<-|[<-|[<-|[]]]]]]; reflexivity.
Qed.

Lemma getDevTargetBySectionId_in id key :
  getDevTargetBySectionId id = Some key → In key sectionOrder.
Proof.
  unfold getDevTargetBySectionId. intros H.
  apply List.find_some in H. tauto.
Qed.

Lemma getDevTargetBySectionId_own id key :
  getDevTargetBySectionId id = Some key →
  sectionMap_get key = Some (Js.Str id).
Proof.
  unfold getDevTargetBySectionId. intros H.
  apply List.find_some in H. destruct H as [_ H].
  unfold Js.strict_eq_string in H.
  destruct (sectionMap_get key) as [[s|t]|]; try discriminate.
  apply String.eqb_eq in H. by subst.
Qed.

(** Two ids that resolve to the same name are the same id. *)
Lemma getDevTargetBySectionId_inj id1 id2 key :
  getDevTargetBySectionId id1 = Some key →
  getDevTargetBySectionId id2 = Some key →
  id1 = id2.
Proof.
  intros H1 H2.
  apply getDevTargetBySectionId_own in H1, H2. congruence.
Qed.

(** ** First match of a predicate over an ordered list *)

Section FirstMatch.
Variable P : string → bool.

Lemma find_lowest_index l t :
  List.find P l = Some t →
  P t = true ∧
  ∃ i, index_in l t = Some i ∧
       ∀ u j, P u = true → index_in l u = Some j → (i ≤ j)%nat.
Proof.
  induction l as [|x rest IH]; simpl; [discriminate|].
  destruct (P x) eqn:Px.
  - intros [= ->]. split; [done|].
    exists 0%nat. rewrite String.eqb_refl. split; [done|]. intros; lia.
  - intros Hf. destruct (IH Hf) as (Pt & i & Hi & Hmin).
    split; [done|]. exists (S i). split.
    + destruct (String.eqb_spec x t) as [->|_]; [congruence|].
      by rewrite Hi.
    + intros u j Pu. destruct (String.eqb_spec x u) as [->|_]; [congruence|].
      destruct (index_in rest u) as [j'|] eqn:Hu; simpl; [|discriminate].
      intros [= <-]. specialize (Hmin u j' Pu Hu). lia.
Qed.

Lemma find_none_index l u j :
  List.find P l = None → index_in l u = Some j → P u = false.
Proof.
  revert j. induction l as [|x rest IH]; simpl; [discriminate|].
  intros j. destruct (P x) eqn:Px; [discriminate|].
  intros Hf. destruct (String.eqb_spec x u) as [->|_]; [done|].
  destruct (index_in rest u) as [j'|] eqn:Hu; simpl; [|discriminate].
  intros _. by eapply IH.
Qed.
End FirstMatch.

Lemma index_in_Some_In l t i : index_in l t = Some i → In t l.
Proof.
  revert i. induction l as [|x rest IH]; simpl; [discriminate|].
  intros i. destruct (String.eqb_spec x t) as [->|_]; [by left|].
  destruct (index_in rest t) eqn:E; simpl; [|discriminate].
  intros _. right. by eapply IH.
Qed.

Lemma In_index_in l t : In t l → ∃ i, index_in l t = Some i.
Proof.
  induction l as [|x rest IH]; simpl; [done|].
  intros H. destruct (String.eqb_spec x t) as [->|Hne]; [by eexists|].
  destruct H as [?|H]; [done|]. destruct (IH H) as [i ->]. by eexists.
Qed.

(** ** The visible set *)

Lemma apply_entry_cases vis e :
  (apply_entry vis e = vis ∧ getDevTargetBySectionId (target_id e) = None) ∨
  ∃ key, getDevTargetBySectionId (target_id e) = Some key ∧
         apply_entry vis e =
           if isIntersecting e then {[key]} ∪ vis else vis ∖ {[key]}.
Proof.
  unfold apply_entry.
  destruct (getDevTargetBySectionId (target_id e)) as [key|] eqn:E; [|by left].
  right. exists key. split; [done|].
  by rewrite (sectionOrder_truthy key (getDevTargetBySectionId_in _ _ E)).
Qed.

Lemma apply_entry_declared vis e :
  vis ⊆ declared → apply_entry vis e ⊆ declared.
Proof.
  intros Hsub.
  destruct (apply_entry_cases vis e) as [[-> _]|(key & Hk & ->)]; [done|].
  apply getDevTargetBySectionId_in in Hk.
  assert (key ∈ declared).
  { unfold declared. apply elem_of_list_to_set, list_elem_of_In, Hk. }
  destruct (isIntersecting e); set_solver.
Qed.

Lemma apply_entries_declared entries vis :
  vis ⊆ declared → apply_entries entries vis ⊆ declared.
Proof.
  unfold apply_entries. revert vis.
  induction entries as [|e rest IH]; simpl; [done|].
  intros vis H. apply IH. by apply apply_entry_declared.
Qed.

Lemma apply_entry_comm vis e1 e2 :
  target_id e1 ≠ target_id e2 →
  apply_entry (apply_entry vis e1) e2 = apply_entry (apply_entry vis e2) e1.
Proof.
  intros Hne.
  destruct (apply_entry_cases vis e1) as [[H1 N1]|(k1 & K1 & H1)];
    destruct (apply_entry_cases (apply_entry vis e1) e2)
      as [[H2 N2]|(k2 & K2 & H2)];
    destruct (apply_entry_cases vis e2) as [[H3 N3]|(k3 & K3 & H3)];
    destruct (apply_entry_cases (apply_entry vis e2) e1)
      as [[H4 N4]|(k4 & K4 & H4)];
    try congruence.
  assert (k3 = k2) as -> by congruence.
  assert (k4 = k1) as -> by congruence.
  assert (k1 ≠ k2).
  { intros ->. apply Hne. by eapply getDevTargetBySectionId_inj. }
  rewrite H2, H4, H1, H3.
  destruct (isIntersecting e1), (isIntersecting e2); set_solver.
Qed.

Lemma apply_entries_perm entries entries' :
  Permutation entries entries' →
  NoDup (map target_id entries) →
  ∀ vis, apply_entries entries vis = apply_entries entries' vis.
Proof.
  unfold apply_entries.
  induction 1 as [|x l l' Hp IH|x y l|l l' l'' Hp1 IH1 Hp2 IH2]; intros Hnd vis.
  - done.
  - simpl. apply IH. simpl in Hnd. by apply NoDup_cons_1_2 in Hnd.
  - simpl. f_equal. apply apply_entry_comm.
    simpl in Hnd. apply NoDup_cons_1_1 in Hnd.
    intros Heq. apply Hnd. rewrite Heq. by left.
  - rewrite IH1 by done. apply IH2.
    by rewrite <- (Permutation_map target_id Hp1).
Qed.

Lemma activeTarget_in vis t : activeTarget vis = Some t → In t sectionOrder.
Proof. unfold activeTarget. intros H. apply List.find_some in H. tauto. Qed.

(** The callback hands [setActiveLink] the first visible name, if any. *)
Lemma observer_callback_unfold p entries s :
  let vis := apply_entries entries (visibleSections s) in
  observer_callback p entries s =
    match activeTarget vis with
    | Some t => setActiveLink p t (with_visible vis s)
    | None => with_visible vis s
    end.
Proof.
  unfold observer_callback. simpl.
  destruct (activeTarget _) as [t|] eqn:E; [|done].
  by rewrite (sectionOrder_truthy t (activeTarget_in _ _ E)).
Qed.

Lemma setActiveLink_visible p t s :
  visibleSections (setActiveLink p t s) = visibleSections s.
Proof. reflexivity. Qed.

Lemma step_declared s e :
  visibleSections s ⊆ declared → visibleSections (step s e) ⊆ declared.
Proof.
  intros H. destruct e as [p|p i|p entries|]; simpl.
  - unfold animation_frame.
    destruct (frame_pending s); [|done].
    destruct (initialActive (links s)) as [i|]; [|done].
    by destruct (links s !! i).
  - unfold click. destruct (links s !! i) as [l|]; [|done].
    unfold click_handler.
    destruct (negb (Js.truthy_string (dev_target l))); [done|].
    destruct (negb (Js.truthy (sectionMap_get (dev_target l)))); [done|].
    destruct (sectionMap_get (dev_target l)) as [v|]; [|done].
    by destruct (getElementById p (Js.to_text v)).
  - destruct (observer s); [|done].
    pose proof (observer_callback_unfold p entries s) as E. simpl in E.
    rewrite E.
    pose proof (apply_entries_declared entries _ H).
    by destruct (activeTarget _).
  - set_solver.
Qed.

Lemma run_declared es s :
  visibleSections s ⊆ declared → visibleSections (run s es) ⊆ declared.
Proof.
  unfold run. revert s. induction es as [|e rest IH]; simpl; [done|].
  intros s H. apply IH. by apply step_declared.
Qed.

Lemma init_visible p markup : visibleSections (init p markup) = ∅.
Proof. by destruct markup. Qed.

(** ** Claims *)

(** C1. After a batch has been applied to the visible set, the observer
    callback activates the member of the visible set with the lowest index
    in [sectionOrder] (and activates nothing when no ordered name is
    visible); the choice does not depend on the order in which the entries
    of the batch arrive, each section being reported once; a batch that
    reports floor-plans and browse-homes intersecting, overview not being
    visible, resolves to floor-plans in either arrival order. *)
Theorem C1_active_target_is_lowest_visible :
  (∀ p entries s,
     let vis := apply_entries entries (visibleSections s) in
     match activeTarget vis with
     | Some t =>
         lowest_visible vis t ∧
         observer_callback p entries s = setActiveLink p t (with_visible vis s)
     | None =>
         (∀ u, u ∈ vis → order_index u = None) ∧
         observer_callback p entries s = with_visible vis s
     end) ∧
  (∀ entries entries' vis,
     Permutation entries entries' →
     NoDup (map target_id entries) →
     activeTarget (apply_entries entries vis)
     = activeTarget (apply_entries entries' vis)) ∧
  (∀ vis,
     "overview" ∉ vis →
     activeTarget (apply_entries [entry "floor-plans-section" true;
                                  entry "lots-section" true] vis)
     = Some "floor-plans" ∧
     activeTarget (apply_entries [entry "lots-section" true;
                                  entry "floor-plans-section" true] vis)
     = Some "floor-plans").
Proof.
  split; [|split].
  - intros p entries s vis.
    pose proof (observer_callback_unfold p entries s) as E. simpl in E.
    fold vis in E. rewrite E.
    destruct (activeTarget vis) as [t|] eqn:A; (split; [|done]).
    + unfold activeTarget in A.
      destruct (find_lowest_index _ _ _ A) as (Pt & i & Hi & Hmin).
      split; [by apply bool_decide_eq_true in Pt|].
      exists i. split; [done|].
      intros u j Hu. apply Hmin. by apply bool_decide_eq_true.
    + intros u Hu. destruct (order_index u) as [j|] eqn:Hj; [|done].
      unfold activeTarget in A.
      pose proof (find_none_index _ _ _ _ A Hj) as F.
      apply bool_decide_eq_false in F. done.
  - intros entries entries' vis Hp Hnd.
    by rewrite (apply_entries_perm _ _ Hp Hnd).
  - intros vis Hov.
    assert (∀ V : gset string,
               "overview" ∉ V → "floor-plans" ∈ V →
               activeTarget V = Some "floor-plans") as Hfp.
    { intros V H1 H2. unfold activeTarget, sectionOrder. simpl.
      rewrite (bool_decide_eq_false_2 _ H1).
      by rewrite (bool_decide_eq_true_2 _ H2). }
    assert (getDevTargetBySectionId "floor-plans-section" = Some "floor-plans")
      as R1 by reflexivity.
    assert (getDevTargetBySectionId "lots-section" = Some "browse-homes")
      as R2 by reflexivity.
    assert (∀ id key V, getDevTargetBySectionId id = Some key →
              apply_entry V (entry id true) = {[key]} ∪ V) as Hadd.
    { intros id key V Hk.
      destruct (apply_entry_cases V (entry id true)) as [[_ N]|(k & K & ->)];
        simpl in *; congruence. }
    split; apply Hfp; unfold apply_entries; cbn [fold_left];
      rewrite !(Hadd _ _ _ R1), ?(Hadd _ _ _ R2), ?(Hadd _ _ _ R1);
      set_solver.
Qed.

Lemma C1_witness :
  activeTarget (apply_entries [entry "floor-plans-section" true;
                               entry "overview-section" false] ∅)
  = activeTarget (apply_entries [entry "overview-section" false;
                                 entry "floor-plans-section" true] ∅).
Proof.
  apply (proj1 (proj2 C1_active_target_is_lowest_visible)).
  - apply perm_swap.
  - apply (bool_decide_unpack _). by vm_compute.
Defined.

(** C3. If an intersection batch leaves the visible set empty, the callback
    changes no link and requests no scroll. *)
Theorem C3_empty_visible_set_keeps_links p s entries :
  visibleSections (step s (Intersections p entries)) = ∅ →
  links (step s (Intersections p entries)) = links s ∧
  effects (step s (Intersections p entries)) = effects s.
Proof.
  simpl. destruct (observer s); [|done].
  pose proof (observer_callback_unfold p entries s) as E. simpl in E.
  rewrite E. clear E.
  destruct (activeTarget _) as [t|] eqn:A; [|done].
  rewrite setActiveLink_visible. simpl. intros Hempty.
  unfold activeTarget in A. apply List.find_some in A.
  destruct A as [_ A]. apply bool_decide_eq_true in A.
  rewrite Hempty in A. set_solver.
Qed.

(** C9. In every state the controller can reach from [init], every name in
    [visibleSections] is a member of [sectionOrder]. *)
Theorem C9_visible_subset_of_section_order p markup events :
  visibleSections (run (init p markup) events) ⊆ list_to_set sectionOrder.
Proof.
  apply run_declared. rewrite init_visible. set_solver.
Qed.

(** C10. For every name of [sectionOrder], looking its section id up in
    [sectionMap] and resolving that id back gives the name; the section ids
    of the table are pairwise distinct. *)
Theorem C10_tables_round_trip :
  Forall (λ name, ∃ id, sectionMap_get name = Some (Js.Str id) ∧
                        getDevTargetBySectionId id = Some name)
         sectionOrder ∧
  NoDup (map snd sectionMap).
Proof.
  split.
  - repeat constructor; eexists; (split; [reflexivity|reflexivity]).
  - apply (bool_decide_unpack _). by vm_compute.
Qed.

(** ** Links and their active flag *)

Lemma sectionMap_get_own_cases t id :
  sectionMap_get t = Some (Js.Str id) → In (t, id) sectionMap.
Proof.
  unfold sectionMap_get, Js.read.
  destruct (Js.assoc t sectionMap) as [s|] eqn:E.
  - intros [= <-]. revert E. generalize sectionMap.
    induction l as [|[k v] rest IH]; simpl; [discriminate|].
    destruct (String.eqb_spec k t) as [->|_].
    + intros [= ->]. by left.
    + intros H. right. by apply IH.
  - by destruct (Js.assoc t Js.object_prototype).
Qed.

Lemma sectionMap_get_truthy t v :
  sectionMap_get t = Some v →
  Js.truthy (Some v) = true ∧ Js.truthy_string t = true.
Proof.
  destruct v as [id|text].
  - intros H. apply sectionMap_get_own_cases in H.
    unfold sectionMap in H. simpl in H.
    destruct H as [H|[H|[H|[H|[H|[H|[]]]]]]]; injection H as <- <-; done.
  - intros H. split; [done|].
    destruct (String.eqb_spec t "") as [->|Hne]; [discriminate H|].
    unfold Js.truthy_string. by apply String.eqb_neq in Hne as ->.
Qed.

Lemma click_handler_mapped p link s v rect_top :
  sectionMap_get (dev_target link) = Some v →
  getElementById p (Js.to_text v) = Some rect_top →
  click_handler p link s =
    setActiveLink p (dev_target link)
      (log [WindowScrollTo (sectionTop p link rect_top)]
           (log [PreventDefault] s)).
Proof.
  intros Hv Hs. unfold click_handler.
  destruct (sectionMap_get_truthy _ _ Hv) as [T1 T2].
  rewrite T2, Hv, T1. simpl. by rewrite Hs.
Qed.

Lemma click_handler_absent p link s v :
  sectionMap_get (dev_target link) = Some v →
  getElementById p (Js.to_text v) = None →
  click_handler p link s =
    log [ConsoleError ("StickyNavController: Section #" ++ Js.to_text v
                       ++ " not found.")]
        (log [PreventDefault] s).
Proof.
  intros Hv Hs. unfold click_handler.
  destruct (sectionMap_get_truthy _ _ Hv) as [T1 T2].
  rewrite T2, Hv, T1. simpl. by rewrite Hs.
Qed.

Lemma click_handler_unmapped p link s :
  sectionMap_get (dev_target link) = None →
  click_handler p link s = log [PreventDefault] s.
Proof.
  intros Hv. unfold click_handler. rewrite Hv. simpl.
  by destruct (negb (Js.truthy_string (dev_target link))).
Qed.

Lemma setActiveLink_links p t s :
  links (setActiveLink p t s)
  = map (λ l, set_active (String.eqb (dev_target l) t) l) (links s).
Proof.
  unfold setActiveLink. simpl. rewrite map_map. reflexivity.
Qed.

Lemma setActiveLink_targets p t s :
  map dev_target (links (setActiveLink p t s)) = map dev_target (links s).
Proof.
  rewrite setActiveLink_links, map_map. reflexivity.
Qed.

Lemma count_active_cons l ls :
  count_active (l :: ls)
  = ((if is_active l then 1 else 0) + count_active ls)%nat.
Proof.
  unfold count_active. rewrite filter_cons.
  destruct (is_active l) eqn:E; case_decide; simpl; congruence.
Qed.

Lemma count_active_retarget t ls :
  t ∉ map dev_target ls →
  count_active (map (λ l, set_active (String.eqb (dev_target l) t) l) ls) = 0%nat.
Proof.
  induction ls as [|l rest IH]; [done|].
  intros Hn. rewrite map_cons, count_active_cons. simpl in *.
  destruct (String.eqb_spec (dev_target l) t) as [E|_].
  { exfalso. apply Hn. rewrite <- E. set_solver. }
  simpl. apply IH. set_solver.
Qed.

Lemma count_active_setActive t ls :
  NoDup (map dev_target ls) →
  (count_active (map (λ l, set_active (String.eqb (dev_target l) t) l) ls)
   ≤ 1)%nat.
Proof.
  induction ls as [|l rest IH]; [simpl; intros; unfold count_active; simpl; lia|].
  intros Hnd. rewrite map_cons in Hnd. apply NoDup_cons in Hnd as [Hn Hnd].
  rewrite map_cons, count_active_cons. simpl.
  destruct (String.eqb_spec (dev_target l) t) as [<-|_].
  - rewrite count_active_retarget by done. lia.
  - simpl. by apply IH.
Qed.

Lemma set_active_same l : set_active (is_active l) l = l.
Proof. by destruct l. Qed.

Lemma find_index_active ls i :
  find_index is_active ls = Some i →
  ∃ l, ls !! i = Some l ∧ is_active l = true.
Proof.
  revert i. induction ls as [|x rest IH]; simpl; [discriminate|].
  intros i. destruct (is_active x) eqn:E.
  - intros [= <-]. by exists x.
  - destruct (find_index is_active rest) as [j|]; simpl; [|discriminate].
    intros [= <-]. by apply IH.
Qed.

Lemma find_index_none ls :
  find_index is_active ls = None → count_active ls = 0%nat.
Proof.
  induction ls as [|x rest IH]; simpl; [done|].
  rewrite count_active_cons. destruct (is_active x); [discriminate|].
  destruct (find_index is_active rest); simpl; [discriminate|].
  intros _. by apply IH.
Qed.

(** The frame callback of [init] marks a link that is already active, or
    the first link when none is. *)
Lemma animation_frame_links p s :
  links (animation_frame p s) = links s ∨
  (count_active (links s) = 0%nat ∧
   ∃ l rest, links s = l :: rest ∧
             links (animation_frame p s) = set_active true l :: rest).
Proof.
  unfold animation_frame. destruct (frame_pending s); [|by left].
  unfold initialActive.
  destruct (find_index is_active (links s)) as [i|] eqn:F.
  - destruct (find_index_active _ _ F) as (l & Hl & Ha).
    rewrite Hl. simpl. left.
    rewrite <- Ha, set_active_same. by apply list_insert_id.
  - destruct (links s) as [|l rest] eqn:E; [by left|].
    simpl. right. split; [by apply find_index_none|]. by exists l, rest.
Qed.

Lemma setActiveLink_invariant p t s :
  NoDup (map dev_target (links s)) → nav_invariant (setActiveLink p t s).
Proof.
  intros Hnd. split.
  - by rewrite setActiveLink_targets.
  - unfold active_count. rewrite setActiveLink_links.
    by apply count_active_setActive.
Qed.

Lemma step_invariant s e : nav_invariant s → nav_invariant (step s e).
Proof.
  intros [Hnd Hc]. destruct e as [p|p i|p entries|]; simpl.
  - destruct (animation_frame_links p s) as [E|(Hz & l & rest & E1 & E2)].
    + unfold nav_invariant, active_count. by rewrite E.
    + unfold nav_invariant, active_count. rewrite E2. split.
      * rewrite E1 in Hnd. exact Hnd.
      * fold (count_active (set_active true l :: rest)).
        rewrite count_active_cons. simpl.
        rewrite E1, count_active_cons in Hz. lia.
  - unfold click. destruct (links s !! i) as [l|]; [|done].
    destruct (sectionMap_get (dev_target l)) as [v|] eqn:Hv.
    + destruct (getElementById p (Js.to_text v)) as [top|] eqn:Hs.
      * rewrite (click_handler_mapped _ _ _ _ _ Hv Hs).
        by apply setActiveLink_invariant.
      * by rewrite (click_handler_absent _ _ _ _ Hv Hs).
    + by rewrite (click_handler_unmapped _ _ _ Hv).
  - destruct (observer s); [|done].
    pose proof (observer_callback_unfold p entries s) as E. simpl in E.
    rewrite E. destruct (activeTarget _); [|done].
    by apply setActiveLink_invariant.
  - done.
Qed.

Lemma run_invariant es s : nav_invariant s → nav_invariant (run s es).
Proof.
  unfold run. revert s. induction es as [|e rest IH]; simpl; [done|].
  intros s H. apply IH. by apply step_invariant.
Qed.

Lemma lookup_map {A B} (f : A → B) (l : list A) (j : nat) :
  map f l !! j = option_map f (l !! j).
Proof.
  revert j. induction l as [|x rest IH]; intros [|j]; simpl; done.
Qed.

Lemma setActiveLink_lookup p t s j l' :
  links (setActiveLink p t s) !! j = Some l' →
  ∃ l, links s !! j = Some l ∧ dev_target l' = dev_target l ∧
       is_active l' = String.eqb (dev_target l) t.
Proof.
  rewrite setActiveLink_links, lookup_map.
  destruct (links s !! j) as [l|]; simpl; [|discriminate].
  intros [= <-]. by exists l.
Qed.

Lemma setActiveLink_effects p t s :
  ∃ strip_scrolls,
    effects (setActiveLink p t s) = effects s ++ strip_scrolls ∧
    Forall (λ e, ∃ k x, e = StripScrollTo k x) strip_scrolls.
Proof.
  unfold setActiveLink. simpl. eexists. split; [reflexivity|].
  induction (links s) as [|l rest IH]; simpl; [constructor|].
  apply Forall_app. split; [|exact IH].
  destruct (String.eqb (dev_target l) t); [|constructor].
  unfold scrollLinkIntoStrip.
  destruct (innerWidth p >? 767)%Z; [constructor|].
  destruct (tab_left l); repeat constructor. by eexists _, _.
Qed.

(** ** Claims about clicks and the strip *)

(** C3, at a concrete batch: floor-plans leaves the band while nothing else
    is in it. *)
Lemma C3_witness :
  let s := run (started sample_links)
               [Intersections sample_page [entry "floor-plans-section" true]] in
  let batch := Intersections sample_page [entry "floor-plans-section" false] in
  visibleSections (step s batch) = ∅ ∧
  links (step s batch) = links s ∧ effects (step s batch) = effects s.
Proof.
  intros s batch.
  assert (visibleSections (step s batch) = ∅) as H.
  { apply set_eq. intros x. vm_compute. set_solver. }
  split; [exact H|].
  exact (C3_empty_visible_set_keeps_links sample_page s _ H).
Defined.

Lemma step_targets s e :
  map dev_target (links (step s e)) = map dev_target (links s).
Proof.
  destruct e as [p|p i|p entries|]; simpl.
  - destruct (animation_frame_links p s) as [->|(_ & l & rest & E1 & ->)];
      [done|by rewrite E1].
  - unfold click. destruct (links s !! i) as [l|]; [|done].
    destruct (sectionMap_get (dev_target l)) as [v|] eqn:Hv.
    + destruct (getElementById p (Js.to_text v)) as [top|] eqn:Hs.
      * by rewrite (click_handler_mapped _ _ _ _ _ Hv Hs), setActiveLink_targets.
      * by rewrite (click_handler_absent _ _ _ _ Hv Hs).
    + by rewrite (click_handler_unmapped _ _ _ Hv).
  - destruct (observer s); [|done].
    pose proof (observer_callback_unfold p entries s) as E. simpl in E.
    rewrite E. destruct (activeTarget _); [|done].
    by rewrite setActiveLink_targets.
  - done.
Qed.

Lemma run_targets es s :
  map dev_target (links (run s es)) = map dev_target (links s).
Proof.
  unfold run. revert s. induction es as [|e rest IH]; intros s; simpl; [done|].
  by rewrite IH, step_targets.
Qed.

Lemma init_targets p markup :
  map dev_target (links (init p markup)) = map dev_target markup.
Proof. by destruct markup. Qed.

(** A handler run either leaves every link as it was or leaves at most one
    link active, when target names are pairwise distinct. *)
Lemma step_unchanged_or_single s e :
  NoDup (map dev_target (links s)) →
  links (step s e) = links s ∨ (active_count (step s e) ≤ 1)%nat.
Proof.
  intros Hnd. destruct e as [p|p i|p entries|]; simpl.
  - destruct (animation_frame_links p s) as [E|(Hz & l & rest & E1 & E2)];
      [by left|right].
    unfold active_count. rewrite E2, count_active_cons. simpl.
    rewrite E1, count_active_cons in Hz. lia.
  - unfold click. destruct (links s !! i) as [l|]; [|by left].
    destruct (sectionMap_get (dev_target l)) as [v|] eqn:Hv.
    + destruct (getElementById p (Js.to_text v)) as [top|] eqn:Hs.
      * right. rewrite (click_handler_mapped _ _ _ _ _ Hv Hs).
        by apply setActiveLink_invariant.
      * left. by rewrite (click_handler_absent _ _ _ _ Hv Hs).
    + left. by rewrite (click_handler_unmapped _ _ _ Hv).
  - destruct (observer s); [|by left].
    pose proof (observer_callback_unfold p entries s) as E. simpl in E.
    rewrite E. destruct (activeTarget _); [|by left].
    right. by apply setActiveLink_invariant.
  - by left.
Qed.

(** C4 as amended. When the links' target names are pairwise distinct, every
    handler run (the frame callback of [init], a click, an observer batch)
    that changes any link's flag leaves at most one link active; if moreover
    the markup marks at most one link active, at most one link is active in
    every state reached from [init]. *)
Theorem C4_at_most_one_active p markup events :
  NoDup (map dev_target markup) →
  let s := run (init p markup) events in
  (∀ e, links (step s e) = links s ∨ (active_count (step s e) ≤ 1)%nat) ∧
  ((count_active markup ≤ 1)%nat → (active_count s ≤ 1)%nat).
Proof.
  intros Hnd s. split.
  - intros e. apply step_unchanged_or_single.
    subst s. by rewrite run_targets, init_targets.
  - intros Hc. apply (run_invariant events (init p markup)).
    destruct markup; split; simpl; done.
Qed.

Lemma C4_witness :
  (active_count
     (run (init sample_page sample_links)
          [Frame sample_page; Click sample_page 3;
           Intersections sample_page [entry "lots-section" true]]) ≤ 1)%nat.
Proof.
  refine (proj2 (C4_at_most_one_active sample_page sample_links _ _) _).
  - apply (bool_decide_unpack _). by vm_compute.
  - vm_compute. lia.
Defined.

(** C4 as stated fails: two links with the same target name are both active
    after a click on one of them, and two links marked active in the markup
    are both still active after initialization. *)
Lemma C4_counterexample :
  active_count (run (init sample_page twin_links)
                    [Frame sample_page; Click sample_page 0]) = 2%nat ∧
  active_count (run (init sample_page double_active_links)
                    [Frame sample_page]) = 2%nat.
Proof. split; vm_compute; reflexivity. Qed.

(** C5 as amended. A click on a link whose target name is in the table and
    whose section is in the document, in the same handler run and with no
    observer callback involved: marks active exactly the links that carry the
    clicked link's target name (so exactly the clicked link when target
    names are pairwise distinct), and requests a window scroll to the
    section's document top offset ([getBoundingClientRect().top + scrollY])
    minus the height of the link's nav bar (0 without one), both operations in
    binary64 arithmetic as the engine performs them. *)
Theorem C5_click_marks_link_and_scrolls p i s link id rect_top :
  links s !! i = Some link →
  sectionMap_get (dev_target link) = Some (Js.Str id) →
  getElementById p id = Some rect_top →
  (∀ j l, links (click p i s) !! j = Some l →
          (is_active l = true ↔ dev_target l = dev_target link)) ∧
  (NoDup (map dev_target (links s)) →
   ∀ j l, links (click p i s) !! j = Some l → (is_active l = true ↔ j = i)) ∧
  (∃ l, links (click p i s) !! i = Some l ∧ is_active l = true) ∧
  (∃ strip_scrolls,
     effects (click p i s)
     = effects s
       ++ [PreventDefault;
           WindowScrollTo
               (PrimFloat.sub (PrimFloat.add rect_top (scrollY p))
                              (float_of_Z (navHeight link)))]
       ++ strip_scrolls ∧
     Forall (λ e, ∃ k x, e = StripScrollTo k x) strip_scrolls).
Proof.
  intros Hi Hv Hs. unfold click. rewrite Hi.
  rewrite (click_handler_mapped p link s (Js.Str id) rect_top Hv Hs).
  set (s1 := log _ (log _ s)).
  assert (links s1 = links s) as L1 by reflexivity.
  assert (∀ j l, links (setActiveLink p (dev_target link) s1) !! j = Some l →
                 (is_active l = true ↔ dev_target l = dev_target link)) as Hexact.
  { intros j l Hl. apply setActiveLink_lookup in Hl as (l0 & _ & Ht & Ha).
    rewrite Ha, Ht. apply String.eqb_eq. }
  split; [exact Hexact|]. split; [|split].
  - intros Hnd j l Hl. rewrite (Hexact j l Hl).
    apply setActiveLink_lookup in Hl as (l0 & Hl0 & Ht & _).
    rewrite L1 in Hl0. rewrite Ht. split.
    + intros E. eapply NoDup_lookup; [exact Hnd| |].
      * rewrite lookup_map, Hl0. simpl. by rewrite E.
      * by rewrite lookup_map, Hi.
    + intros ->. congruence.
  - rewrite setActiveLink_links, lookup_map, L1, Hi. simpl.
    eexists. split; [reflexivity|]. simpl. apply String.eqb_refl.
  - destruct (setActiveLink_effects p (dev_target link) s1) as (ss & E & F).
    exists ss. split; [|exact F]. rewrite E. unfold s1, sectionTop. simpl.
    by rewrite <- !app_assoc.
Qed.

Lemma C5_witness :
  ∃ strip_scrolls,
    effects (click sample_page 1 (started sample_links))
    = effects (started sample_links)
      ++ [PreventDefault; WindowScrollTo 936%float]
      ++ strip_scrolls ∧
    Forall (λ e, ∃ k x, e = StripScrollTo k x) strip_scrolls.
Proof.
  apply (C5_click_marks_link_and_scrolls sample_page 1 (started sample_links)
           (sample_link "floor-plans" false 180) "floor-plans-section"
           900%float);
    reflexivity.
Defined.

(** The destination is the rounded sum, not the exact one: a section 0.1px
    below the top of a page scrolled by 0.2px is scrolled to
    0.30000000000000004. *)
Lemma window_scroll_is_rounded :
  effects (click fractional_page 0 (init fractional_page [bare_link]))
  = effects (init fractional_page [bare_link])
    ++ [PreventDefault; WindowScrollTo 0.30000000000000004%float].
Proof. vm_compute. reflexivity. Qed.

(** C5 as stated fails: after a click on the first of two links that carry
    the same target name, the second link is active as well. *)
Lemma C5_counterexample :
  map is_active (links (click sample_page 0 (started twin_links)))
  = [true; true].
Proof. vm_compute. reflexivity. Qed.

(** C6 as amended. The strip is scrolled only when the viewport is at most
    767px wide; the offset requested is [min(max(0, c), m)] for the centring
    offset [c] and [m = scrollWidth - offsetWidth]: it never exceeds [m],
    and when the strip's [scrollWidth] is at least its [offsetWidth] it lies
    in [[0, m]], equal to [c] whenever [c] itself lies there. *)
Theorem C6_strip_offset_clamped p l strip :
  tab_left l = Some strip →
  ((767 < innerWidth p)%Z → scrollLinkIntoStrip p l = []) ∧
  ((innerWidth p ≤ 767)%Z →
   scrollLinkIntoStrip p l
   = [StripScrollTo (strip_id strip) (strip_left l strip)]) ∧
  (strip_left l strip <= maxScroll strip)%Q ∧
  ((strip_offsetWidth strip ≤ strip_scrollWidth strip)%Z →
   in_scroll_range strip (strip_left l strip) ∧
   (in_scroll_range strip (targetScrollLeft l strip) →
    (strip_left l strip == targetScrollLeft l strip)%Q)).
Proof.
  intros Hstrip. unfold scrollLinkIntoStrip. rewrite Hstrip.
  split; [|split; [|split]].
  - intros H. apply Z.gtb_lt in H. by rewrite H.
  - intros H. destruct (innerWidth p >? 767)%Z eqn:E; [|done].
    apply Z.gtb_lt in E. lia.
  - apply Q.le_min_r.
  - intros Hw.
    assert (0 <= maxScroll strip)%Q as Hm.
    { unfold maxScroll. change 0%Q with (inject_Z 0).
      rewrite <- Zle_Qle. lia. }
    split.
    + split; [|apply Q.le_min_r].
      apply Q.min_glb; [apply Q.le_max_l|exact Hm].
    + intros [H0 H1]. unfold strip_left.
      rewrite (Q.max_r _ _ H0). by apply Q.min_l.
Qed.

Lemma C6_witness :
  in_scroll_range sample_strip
    (strip_left (sample_link "browse-homes" true 720) sample_strip).
Proof.
  refine (proj1 (proj2 (proj2 (proj2
    (C6_strip_offset_clamped sample_page (sample_link "browse-homes" true 720)
       sample_strip _))) _)).
  - reflexivity.
  - vm_compute. discriminate.
Defined.

(** C6 as stated fails: on a strip whose [offsetWidth] exceeds its
    [scrollWidth] the offset requested is negative. *)
Lemma C6_counterexample :
  scrollLinkIntoStrip sample_page bordered_link
  = [StripScrollTo 0 (strip_left bordered_link bordered_strip)] ∧
  (strip_left bordered_link bordered_strip < 0)%Q ∧
  ¬ in_scroll_range bordered_strip (strip_left bordered_link bordered_strip).
Proof.
  split; [reflexivity|].
  assert (strip_left bordered_link bordered_strip < 0)%Q as H
    by (vm_compute; reflexivity).
  split; [exact H|].
  intros [H0 _]. exact (Qlt_not_le _ _ H H0).
Qed.

(** The copy of [scrollLinkIntoStrip] in the bundle does not clamp: for the
    first link of the sample strip it requests a negative offset, where the
    source requests 0. *)
Lemma bundle_scroll_not_clamped :
  ∃ left,
    scrollLinkIntoStrip_bundle sample_page (sample_link "overview" true 0)
    = [StripScrollTo 0 left] ∧
    (left < 0)%Q ∧
    (strip_left (sample_link "overview" true 0) sample_strip == 0)%Q.
Proof.
  eexists. split; [reflexivity|]. split; vm_compute; reflexivity.
Qed.

(** C8 as amended. A click on a link whose target name has no entry in the
    table and is not the name of a member every object inherits (so that the
    lookup yields nothing) returns without logging; a click on a link whose
    looked-up value (the mapped section id, or the text of an inherited
    member) is the id of no element of the document logs one diagnostic.  In
    both cases the handler returns normally, no link's active flag changes,
    the visible set is unchanged and no scroll is requested. *)
Theorem C8_click_without_section p i s link :
  links s !! i = Some link →
  (Js.assoc (dev_target link) sectionMap = None →
   Js.assoc (dev_target link) Js.object_prototype = None →
   links (click p i s) = links s ∧
   visibleSections (click p i s) = visibleSections s ∧
   effects (click p i s) = effects s ++ [PreventDefault]) ∧
  (∀ v, sectionMap_get (dev_target link) = Some v →
        getElementById p (Js.to_text v) = None →
        links (click p i s) = links s ∧
        visibleSections (click p i s) = visibleSections s ∧
        effects (click p i s)
        = effects s
          ++ [PreventDefault;
              ConsoleError ("StickyNavController: Section #" ++ Js.to_text v
                            ++ " not found.")]).
Proof.
  intros Hi. unfold click. rewrite Hi. split.
  - intros Hown Hinh.
    assert (sectionMap_get (dev_target link) = None) as Hv.
    { unfold sectionMap_get, Js.read. by rewrite Hown, Hinh. }
    by rewrite (click_handler_unmapped _ _ _ Hv).
  - intros v Hv Hs. rewrite (click_handler_absent _ _ _ _ Hv Hs).
    simpl. by rewrite <- app_assoc.
Qed.

Lemma C8_witness :
  let s := started (sample_links ++ [sample_link "process" false 900]) in
  links (click sample_page 5 s) = links s ∧
  visibleSections (click sample_page 5 s) = visibleSections s ∧
  effects (click sample_page 5 s)
  = effects s
    ++ [PreventDefault;
        ConsoleError "StickyNavController: Section #process-section not found."].
Proof.
  intros s.
  refine (proj2 (C8_click_without_section sample_page 5 s
                   (sample_link "process" false 900) _)
                (Js.Str "process-section") _ _); reflexivity.
Defined.

(** C8 as stated fails, twice.  A click on a link whose target name is not
    in the table logs nothing.  And a target name without an entry can still
    yield a value: for [__proto__] the lookup yields [Object.prototype], and on
    a page that holds an element with id [[object Object]] the click scrolls
    there and changes the active link. *)
Lemma C8_counterexample :
  (sectionMap_get "gallery" = None ∧
   effects (click sample_page 0 (started unmapped_links))
   = effects (started unmapped_links) ++ [PreventDefault] ∧
   ¬ ∃ msg, In (ConsoleError msg)
              (effects (click sample_page 0 (started unmapped_links)))) ∧
  (Js.assoc "__proto__" sectionMap = None ∧
   map is_active (links (started inherited_links)) = [true; false] ∧
   map is_active (links (click object_page 1 (started inherited_links)))
   = [false; true] ∧
   In (WindowScrollTo 536%float)
      (effects (click object_page 1 (started inherited_links)))).
Proof.
  split.
  - split; [reflexivity|]. split; [reflexivity|].
    intros [msg H]. vm_compute in H.
    destruct H as [H|[H|[]]]; discriminate H.
  - split; [reflexivity|]. split; [reflexivity|]. split; [reflexivity|].
    vm_compute. tauto.
Qed.

End NavFacts.

(** * Properties of the gallery *)

Module GalleryFacts.
Import Gallery.

(** ** Counting matches under a child-list mutation *)

Section Counting.
Variable P : Dom.Elem → bool.
Local Abbreviation matches := (Dom.matches P).

Lemma matches_cons c cs : matches (c :: cs) = (matches [c] + matches cs)%nat.
Proof.
  unfold Dom.matches. simpl. rewrite app_nil_r, List.filter_app.
  apply length_app.
Qed.

Lemma matches_app cs1 cs2 :
  matches (cs1 ++ cs2) = (matches cs1 + matches cs2)%nat.
Proof.
  unfold Dom.matches. rewrite flat_map_app, List.filter_app. apply length_app.
Qed.

Lemma matches_node e cs :
  matches [Dom.El e cs] = ((if P e then 1 else 0) + matches cs)%nat.
Proof.
  unfold Dom.matches. simpl. rewrite app_nil_r. by destruct (P e).
Qed.

Lemma matches_replace_nth i c c' cs k :
  nth_error cs i = Some c →
  matches [c'] = (matches [c] + k)%nat →
  matches (Dom.replace_nth i c' cs) = (matches cs + k)%nat.
Proof.
  revert i. induction cs as [|x rest IH]; intros [|i]; simpl; try discriminate.
  - intros [= ->] Hk. rewrite (matches_cons c'), (matches_cons c). lia.
  - intros Hi Hk. rewrite (matches_cons x), (matches_cons x (rest)).
    rewrite (IH i Hi Hk). lia.
Qed.

(** Appending nodes below the node at [path] adds their matches. *)
Lemma matches_append path new d :
  is_Some (Dom.node_at path d) →
  matches [Dom.set_children path (λ cs, cs ++ new) d]
  = (matches [d] + matches new)%nat.
Proof.
  revert d. induction path as [|i rest IH]; intros [e cs]; simpl.
  - intros _. rewrite !matches_node, matches_app. lia.
  - destruct (nth_error cs i) as [c|] eqn:Hi; [|by intros [? ?]].
    intros Hn. rewrite !matches_node.
    rewrite (matches_replace_nth i c _ cs (matches new) Hi (IH c Hn)). lia.
Qed.
End Counting.

Lemma query_length a d :
  length (Dom.querySelectorAll_img a d) = Dom.matches (Dom.is_img_with a) [d].
Proof.
  unfold Dom.querySelectorAll_img, Dom.matches. simpl. by rewrite app_nil_r.
Qed.

(** ** What each operation leaves alone *)

Lemma config_by_trigger c1 c2 :
  In c1 GALLERY_CONFIGS → In c2 GALLERY_CONFIGS →
  trigger c1 = trigger c2 → c1 = c2.
Proof.
  unfold GALLERY_CONFIGS. simpl.
  intros [<-|[<-|[]]] [<-|[<-|[]]]; simpl; intros H; done.
Qed.

Lemma fold_refresh_doc (os : list Observer) s :
  doc (fold_left (λ s o, refresh (obs_config o) s) os s) = doc s.
Proof.
  revert s. induction os as [|o rest IH]; intros s; simpl; [done|].
  by rewrite IH.
Qed.

Lemma fold_refresh_observers (os : list Observer) s :
  observers (fold_left (λ s o, refresh (obs_config o) s) os s) = observers s.
Proof.
  revert s. induction os as [|o rest IH]; intros s; simpl; [done|].
  by rewrite IH.
Qed.

(** After the refreshes of [os] have run, the cache under [k] holds [v] if
    every refresh for [k] writes [v] and either one of them ran or [v] was
    there before. *)
Lemma fold_refresh_lookup (os : list Observer) k v s :
  (∀ o, In o os → trigger (obs_config o) = k →
        Dom.querySelectorAll_img (imageAttr (obs_config o)) (doc s) = v) →
  (caches s !! k = Some v ∨ ∃ o, In o os ∧ trigger (obs_config o) = k) →
  caches (fold_left (λ s o, refresh (obs_config o) s) os s) !! k = Some v.
Proof.
  revert s. induction os as [|o rest IH]; intros s Hall Hex; simpl.
  - destruct Hex as [H|(o & [] & _)]. exact H.
  - apply IH.
    + intros o' Ho' Hk. simpl. apply Hall; [by right|done].
    + destruct (decide (trigger (obs_config o) = k)) as [E|Hne].
      * left. simpl. rewrite E, lookup_insert_eq. f_equal.
        apply Hall; [by left|done].
      * destruct Hex as [H|(o' & [->|Ho'] & Hk)]; [| done |].
        -- left. simpl. by rewrite lookup_insert_ne.
        -- right. by exists o'.
Qed.

Lemma close_observers s : observers (close s) = observers s.
Proof. unfold close. by destruct (overlay s). Qed.

Lemma trigger_listener_observers c b s :
  observers (trigger_listener c b s) = observers s.
Proof.
  unfold trigger_listener. destruct (negb b); [done|].
  destruct (default [] (caches s !! trigger c)); [done|].
  unfold open. simpl. apply close_observers.
Qed.

(** The transition-end listener touches only the overlay reference, the
    sliders, the attached overlays and the log. *)
Lemma onTransitionEnd_keeps s :
  doc (onTransitionEnd s) = doc s ∧ caches (onTransitionEnd s) = caches s ∧
  observers (onTransitionEnd s) = observers s ∧
  bound (onTransitionEnd s) = bound s ∧ heap (onTransitionEnd s) = heap s ∧
  next_overlay (onTransitionEnd s) = next_overlay s ∧
  frames (onTransitionEnd s) = frames s ∧
  body_overflow (onTransitionEnd s) = body_overflow s.
Proof.
  unfold onTransitionEnd, destroy_thumbs, destroy_main.
  destruct (thumbsSwiper s) as [t|]; [destruct (is_array t)|]; simpl;
    try done;
    (destruct (swiper s) as [m|]; [destruct (is_array m)|]; simpl; done).
Qed.

Lemma iter_onTransitionEnd_observers n s :
  observers (Nat.iter n onTransitionEnd s) = observers s.
Proof.
  induction n as [|n IH]; simpl; [done|].
  destruct (onTransitionEnd_keeps (Nat.iter n onTransitionEnd s))
    as (_ & _ & -> & _). exact IH.
Qed.

(** A property kept by every trigger listener is kept by a click. *)
Lemma click_ind (P : State → Prop) target s :
  (∀ c b s, P s → P (trigger_listener c b s)) → P s → P (click target s).
Proof.
  intros Hl Hs. unfold click. destruct (Dom.node_at target (doc s)); [|done].
  generalize (listeners_reached target s). intros l.
  revert s Hs. induction l as [|x rest IH]; intros s Hs; simpl; [done|].
  apply IH. by apply Hl.
Qed.

Lemma step_configs_known s e : configs_known s → configs_known (step s e).
Proof.
  unfold configs_known. intros H.
  destruct e as [path f|target| |u| |]; simpl.
  - unfold mutate. destruct (Dom.node_at path (doc s)); [|done].
    by rewrite fold_refresh_observers.
  - apply (click_ind (λ s0, Forall (λ o, In (obs_config o) GALLERY_CONFIGS)
                              (observers s0))); [|done].
    intros c b s0 H0. by rewrite trigger_listener_observers.
  - by rewrite close_observers.
  - unfold transitionend. destruct (heap s !! u); [|done].
    by rewrite iter_onTransitionEnd_observers.
  - unfold animation_frame. by destruct (frames s).
  - unfold destroy. rewrite close_observers. constructor.
Qed.

Lemma init_config_known s c :
  In c GALLERY_CONFIGS → configs_known s → configs_known (init_config s c).
Proof.
  unfold configs_known, init_config, bindTrigger, observeImages. simpl.
  intros Hc H. destruct (Dom.querySelector_class _ _); simpl; [|done].
  apply Forall_app. split; [done|]. by constructor.
Qed.

Lemma init_configs_known d : configs_known (init d).
Proof.
  unfold init, GALLERY_CONFIGS. simpl.
  apply init_config_known; [simpl; tauto|].
  apply init_config_known; [simpl; tauto|]. constructor.
Qed.

Lemma run_configs_known es s : configs_known s → configs_known (run s es).
Proof.
  unfold run. revert s. induction es as [|e rest IH]; simpl; [done|].
  intros s H. apply IH. by apply step_configs_known.
Qed.

(** ** The image cache *)

Lemma mutate_rescans s config cid path f :
  configs_known s →
  In config GALLERY_CONFIGS →
  In {| obs_target := cid; obs_config := config |} (observers s) →
  In cid (Dom.chain path (doc s)) →
  is_Some (Dom.node_at path (doc s)) →
  doc (mutate path f s) = Dom.set_children path f (doc s) ∧
  caches (mutate path f s) !! trigger config
  = Some (Dom.querySelectorAll_img (imageAttr config) (doc (mutate path f s))).
Proof.
  intros Hknown Hc Hobs Hunder [n Hn]. unfold mutate. rewrite Hn.
  rewrite fold_refresh_doc. split; [done|].
  apply fold_refresh_lookup.
  - intros o Ho Hk. apply List.filter_In in Ho as [Ho _].
    unfold configs_known in Hknown. rewrite Forall_forall in Hknown.
    apply list_elem_of_In in Ho.
    by rewrite (config_by_trigger _ _ (Hknown o Ho) Hc Hk).
  - right. exists {| obs_target := cid; obs_config := config |}.
    split; [|reflexivity].
    apply List.filter_In. split; [exact Hobs|].
    unfold notified. simpl. apply existsb_exists. exists cid.
    split; [exact Hunder|apply Nat.eqb_refl].
Qed.

Lemma init_config_other s c k :
  trigger c ≠ k → caches (init_config s c) !! k = caches s !! k.
Proof.
  intros Hne. unfold init_config, bindTrigger, observeImages. simpl.
  destruct (Dom.querySelector_class _ _); simpl;
    by rewrite !lookup_insert_ne.
Qed.

Lemma init_config_observers_mono s c o :
  In o (observers s) → In o (observers (init_config s c)).
Proof.
  intros H. unfold init_config, bindTrigger, observeImages. simpl.
  destruct (Dom.querySelector_class _ _); simpl; [|done].
  apply in_or_app. by left.
Qed.

Lemma init_config_own s c container :
  Dom.querySelector_class (containerClass c) (doc s) = Some container →
  doc (init_config s c) = doc s ∧
  In {| obs_target := Dom.uid container; obs_config := c |}
     (observers (init_config s c)) ∧
  caches (init_config s c) !! trigger c
  = Some (Dom.querySelectorAll_img (imageAttr c) (doc s)).
Proof.
  intros Hq. unfold init_config, bindTrigger, observeImages. simpl.
  rewrite Hq. simpl. split; [done|]. split.
  - apply in_or_app. right. by left.
  - by rewrite lookup_insert_eq.
Qed.

Lemma init_config_doc s c : doc (init_config s c) = doc s.
Proof.
  unfold init_config, bindTrigger, observeImages. simpl.
  by destruct (Dom.querySelector_class _ _).
Qed.

Lemma init_watches d config container :
  In config GALLERY_CONFIGS →
  Dom.querySelector_class (containerClass config) d = Some container →
  In {| obs_target := Dom.uid container; obs_config := config |}
     (observers (init d)) ∧
  caches (init d) !! trigger config
  = Some (Dom.querySelectorAll_img (imageAttr config) d).
Proof.
  intros Hin Hq.
  pose (c1 := {| trigger := "image-gallery";
                 imageAttr := "hidden-main-gallery-images";
                 containerClass := ".hidden-main-gallery-collection" |}).
  pose (c2 := {| trigger := "community-gallery";
                 imageAttr := "hidden-community-gallery-images";
                 containerClass := ".hidden-community-gallery-collection" |}).
  change (init d) with (init_config (init_config (fresh d) c1) c2).
  destruct Hin as [<-|[<-|[]]].
  - destruct (init_config_own (fresh d) c1 container Hq) as (_ & Ho & Hc).
    split; [by apply init_config_observers_mono|].
    by rewrite init_config_other.
  - destruct (init_config_own (init_config (fresh d) c1) c2 container)
      as (_ & Ho & Hc); [by rewrite init_config_doc|].
    split; [exact Ho|]. rewrite init_config_doc in Hc. exact Hc.
Qed.

Lemma init_doc d : doc (init d) = d.
Proof.
  unfold init, GALLERY_CONFIGS. cbn [fold_left]. by rewrite !init_config_doc.
Qed.

Lemma watched_config_known s o :
  configs_known s → In o (observers s) → In (obs_config o) GALLERY_CONFIGS.
Proof.
  unfold configs_known. rewrite Forall_forall. intros H Ho.
  apply H, list_elem_of_In, Ho.
Qed.

(** Appending three matching images under a watched container makes a current
    cache three longer. *)
Lemma append_three s config cid path a b c :
  configs_known s →
  In {| obs_target := cid; obs_config := config |} (observers s) →
  In cid (Dom.chain path (doc s)) →
  is_Some (Dom.node_at path (doc s)) →
  caches s !! trigger config
  = Some (Dom.querySelectorAll_img (imageAttr config) (doc s)) →
  Forall (λ e, Dom.is_img_with (imageAttr config) e = true) [a; b; c] →
  length (cache config
            (mutate path (λ cs, cs ++ [Dom.El a []; Dom.El b []; Dom.El c []]) s))
  = (length (cache config s) + 3)%nat.
Proof.
  intros Hknown Hobs Hunder Hn Hcur Himgs.
  pose proof (watched_config_known s _ Hknown Hobs) as Hc. simpl in Hc.
  destruct (mutate_rescans s config cid path
              (λ cs, cs ++ [Dom.El a []; Dom.El b []; Dom.El c []])
              Hknown Hc Hobs Hunder Hn) as [Hdoc Hcache].
  unfold cache. rewrite Hcache, Hcur, Hdoc.
  cbn [default from_option id]. rewrite !query_length.
  rewrite (matches_append _ path _ (doc s) Hn). f_equal.
  apply Forall_cons in Himgs as [Ha Himgs].
  apply Forall_cons in Himgs as [Hb Himgs].
  apply Forall_cons in Himgs as [Hc' _].
  unfold Dom.matches. simpl. by rewrite Ha, Hb, Hc'.
Qed.

(** C7 as amended. In every state reached from [init], a child-list mutation
    at any depth under a watched container leaves that gallery's cache equal
    to the document-ordered list of all images of the mutated document that
    carry the config's image attribute.  On any page where [init] finds the
    container, appending three matching images anywhere under it makes the
    cache three longer than [init] left it; the same holds from every later
    state in which the cache is current. *)
Theorem C7_cache_rescanned_on_mutation :
  (∀ d events config cid path f,
     let s := run (init d) events in
     In {| obs_target := cid; obs_config := config |} (observers s) →
     In cid (Dom.chain path (doc s)) →
     is_Some (Dom.node_at path (doc s)) →
     let s' := step s (Mutation path f) in
     doc s' = Dom.set_children path f (doc s) ∧
     caches s' !! trigger config
     = Some (Dom.querySelectorAll_img (imageAttr config) (doc s'))) ∧
  (∀ d config container path a b c,
     In config GALLERY_CONFIGS →
     Dom.querySelector_class (containerClass config) d = Some container →
     In (Dom.uid container) (Dom.chain path d) →
     is_Some (Dom.node_at path d) →
     Forall (λ e, Dom.is_img_with (imageAttr config) e = true) [a; b; c] →
     let append cs := cs ++ [Dom.El a []; Dom.El b []; Dom.El c []] in
     length (cache config (step (init d) (Mutation path append)))
     = (length (cache config (init d)) + 3)%nat) ∧
  (∀ d events config cid path a b c,
     let s := run (init d) events in
     In {| obs_target := cid; obs_config := config |} (observers s) →
     In cid (Dom.chain path (doc s)) →
     is_Some (Dom.node_at path (doc s)) →
     caches s !! trigger config
     = Some (Dom.querySelectorAll_img (imageAttr config) (doc s)) →
     Forall (λ e, Dom.is_img_with (imageAttr config) e = true) [a; b; c] →
     let append cs := cs ++ [Dom.El a []; Dom.El b []; Dom.El c []] in
     length (cache config (step s (Mutation path append)))
     = (length (cache config s) + 3)%nat).
Proof.
  split; [|split].
  - intros d events config cid path f s Hobs Hunder Hn s'.
    assert (configs_known s) as Hknown
      by apply run_configs_known, init_configs_known.
    apply (mutate_rescans s config cid path f); try done.
    apply (watched_config_known s _ Hknown Hobs).
  - intros d config container path a b c Hc Hq Hunder Hn Himgs append.
    destruct (init_watches d config container Hc Hq) as [Hobs Hcur].
    apply (append_three (init d) config (Dom.uid container) path a b c);
      rewrite ?init_doc; try done.
    apply init_configs_known.
  - intros d events config cid path a b c s Hobs Hunder Hn Hcur Himgs append.
    apply (append_three s config cid path a b c); try done.
    apply run_configs_known, init_configs_known.
Qed.

Lemma C7_witness :
  length (cache main_config
            (step (init sample_doc) (Mutation main_list_path three_more)))
  = (length (cache main_config (init sample_doc)) + 3)%nat.
Proof.
  refine (proj1 (proj2 C7_cache_rescanned_on_mutation)
            sample_doc main_config
            (element 2 "div" None ["hidden-main-gallery-collection"] "")
            main_list_path
            (element 20 "img" (Some "hidden-main-gallery-images") [] "bath.jpg")
            (element 21 "img" (Some "hidden-main-gallery-images") [] "yard.jpg")
            (element 22 "img" (Some "hidden-main-gallery-images") [] "loft.jpg")
            _ _ _ _ _).
  - left. reflexivity.
  - reflexivity.
  - vm_compute. tauto.
  - eexists. reflexivity.
  - repeat constructor.
Defined.

(** C7 as stated fails for the count: when a matching image has been added
    outside the watched container, which no observer reports, the cache is
    stale, and appending three matching images under the watched container
    then makes it four longer. *)
Lemma C7_counterexample :
  let s := step (init sample_doc) (Mutation [0%nat] stray_image) in
  In {| obs_target := 2; obs_config := main_config |} (observers s) ∧
  In 2%nat (Dom.chain main_list_path (doc s)) ∧
  length (cache main_config (step s (Mutation main_list_path three_more)))
  = (length (cache main_config s) + 4)%nat.
Proof. vm_compute. tauto. Qed.

(** ** Overlays *)

Lemma close_frame s :
  body (close s) = body s ∧ overlay (close s) = overlay s ∧
  next_overlay (close s) = next_overlay s.
Proof. unfold close. destruct (overlay s) eqn:E; simpl; rewrite ?E; auto. Qed.

(** [open] attaches a new element and removes none. *)
Lemma open_body imgs k s :
  body (open imgs k s) = body s ++ [next_overlay s] ∧
  overlay (open imgs k s) = Some (next_overlay s).
Proof.
  destruct (close_frame s) as (Hb & _ & Hn).
  unfold open. simpl. by rewrite Hb, Hn.
Qed.

Lemma orphaned_close u s : orphaned u s → orphaned u (close s).
Proof.
  unfold orphaned. destruct (close_frame s) as (-> & -> & ->). done.
Qed.

Lemma orphaned_open u imgs k s : orphaned u s → orphaned u (open imgs k s).
Proof.
  intros (Hin & _ & Hlt). unfold orphaned.
  destruct (open_body imgs k s) as [-> ->].
  destruct (close_frame s) as (_ & _ & Hn).
  split; [apply in_or_app; by left|]. split.
  - intros [= E]. lia.
  - unfold open. simpl. rewrite Hn. lia.
Qed.

(** The listener either raises before it removes anything, or destroys both
    sliders and removes the overlay the controller refers to. *)
Lemma onTransitionEnd_cases s :
  (body (onTransitionEnd s) = body s ∧ overlay (onTransitionEnd s) = overlay s ∧
   ∃ sw, (thumbsSwiper s = Some sw ∨ swiper s = Some sw) ∧ is_array sw = true) ∨
  (overlay (onTransitionEnd s) = None ∧
   swiper (onTransitionEnd s) = None ∧ thumbsSwiper (onTransitionEnd s) = None ∧
   body (onTransitionEnd s)
   = match overlay s with
     | Some u => List.filter (λ x, negb (Nat.eqb x u)) (body s)
     | None => body s
     end).
Proof.
  unfold onTransitionEnd, destroy_thumbs, destroy_main.
  destruct (thumbsSwiper s) as [t|] eqn:Et;
    [destruct (is_array t) eqn:At|]; simpl.
  - left. do 2 (split; [done|]). exists t. by split; [left|].
  - destruct (swiper s) as [m|] eqn:Em; [destruct (is_array m) eqn:Am|]; simpl.
    + left. do 2 (split; [done|]). exists m. by split; [right|].
    + by right.
    + by right.
  - destruct (swiper s) as [m|] eqn:Em; [destruct (is_array m) eqn:Am|]; simpl.
    + left. do 2 (split; [done|]). exists m. by split; [right|].
    + by right.
    + by right.
Qed.

Lemma orphaned_onTransitionEnd u s :
  orphaned u s → orphaned u (onTransitionEnd s).
Proof.
  intros (Hin & Hne & Hlt). unfold orphaned.
  destruct (onTransitionEnd_keeps s) as (_ & _ & _ & _ & _ & -> & _).
  destruct (onTransitionEnd_cases s) as [(-> & -> & _)|(-> & _ & _ & ->)];
    [done|].
  split; [|done].
  destruct (overlay s) as [v|]; [|done].
  apply List.filter_In. split; [done|].
  apply negb_true_iff, Nat.eqb_neq. congruence.
Qed.

Lemma orphaned_refreshes u (os : list Observer) s :
  orphaned u s →
  orphaned u (fold_left (λ s o, refresh (obs_config o) s) os s).
Proof.
  revert s. induction os as [|o rest IH]; intros s H; simpl; [done|].
  by apply IH.
Qed.

Lemma orphaned_step u s e : orphaned u s → orphaned u (step s e).
Proof.
  intros H. destruct e as [path f|target| |v| |]; simpl.
  - unfold mutate. destruct (Dom.node_at path (doc s)); [|done].
    by apply orphaned_refreshes.
  - apply (click_ind (orphaned u)); [|done].
    intros c b s0 H0. unfold trigger_listener. destruct (negb b); [done|].
    destruct (default [] (caches s0 !! trigger c)) eqn:E; [done|].
    by apply orphaned_open.
  - by apply orphaned_close.
  - unfold transitionend. destruct (heap s !! v) as [o|]; [|done].
    induction (transitionend_once o) as [|n IH]; simpl; [done|].
    by apply orphaned_onTransitionEnd.
  - unfold animation_frame. by destruct (frames s).
  - unfold destroy. by apply orphaned_close.
Qed.

Lemma orphaned_run u s events : orphaned u s → In u (body (run s events)).
Proof.
  unfold run. revert s.
  induction events as [|e rest IH]; intros s0 H; simpl.
  - by destruct H.
  - apply IH. by apply orphaned_step.
Qed.

(** An overlay that was open when [open] ran again stays attached to the
    document whatever happens afterwards. *)
Lemma replaced_overlay_never_removed s u imgs k events :
  overlay s = Some u → In u (body s) → (u < next_overlay s)%nat →
  In u (body (run (open imgs k s) events)).
Proof.
  intros Ho Hin Hlt.
  assert (orphaned u (open imgs k s)) as H.
  { unfold orphaned. destruct (open_body imgs k s) as [-> ->].
    destruct (close_frame s) as (_ & _ & Hn).
    split; [apply in_or_app; by left|]. split.
    - intros [= E]. lia.
    - unfold open. simpl. rewrite Hn. lia. }
  by apply orphaned_run.
Qed.

(** C2, evaluated on the sample page.  A click on the image of the main
    trigger opens the main gallery and a frame shows it; a click on the image
    of the community trigger then opens the community gallery while the first
    is still open.  The first overlay element is still attached next to the
    new one.  The sliders of the second [open] were built while both overlays
    matched their selectors, so when the close transition of the first overlay
    ends the listener raises at its first [destroy] and removes nothing; and
    whatever happens later, the first overlay stays in the document. *)
Theorem C2_second_open_keeps_first_overlay :
  let s1 := run (init sample_doc) [Click main_trigger_img; Frame] in
  let s2 := step s1 (Click community_trigger_img) in
  let s3 := step s2 (TransitionEnd 0) in
  (overlay s1 = Some 0%nat ∧ body s1 = [0%nat] ∧
   shown 0 s1 = Some ["kitchen.jpg"; "porch.jpg"]) ∧
  (overlay s2 = Some 1%nat ∧ body s2 = [0%nat; 1%nat] ∧
   shown 0 s2 = Some ["kitchen.jpg"; "porch.jpg"] ∧
   shown 1 s2 = Some ["park.jpg"]) ∧
  (overlay s3 = Some 1%nat ∧ body s3 = [0%nat; 1%nat] ∧
   effects s3
   = effects s2
     ++ [UncaughtTypeError "this.thumbsSwiper?.destroy is not a function"]) ∧
  (∀ events, In 0%nat (body (run s2 events))).
Proof.
  intros s1 s2 s3. split; [|split; [|split]].
  - vm_compute. repeat split.
  - vm_compute. repeat split.
  - vm_compute. repeat split.
  - intros events. apply orphaned_run.
    vm_compute. split; [tauto|]. split; [discriminate|lia].
Qed.

End GalleryFacts.

(** * Further properties of the sticky navigation *)

Module NavMore.
Import StickyNav NavFacts.

(** ** Reverse lookup and the visible set *)

(** X1. The reverse lookup is sound and complete for the ordered targets: it
    returns a name exactly when that name is in [sectionOrder] and the table
    maps it to the given id.  The table also maps process, which is not in
    [sectionOrder]: its section id resolves to nothing, so the observer never
    tracks it. *)
Theorem reverse_lookup_sound_complete :
  (∀ id key,
     getDevTargetBySectionId id = Some key ↔
     In key sectionOrder ∧ sectionMap_get key = Some (Js.Str id)) ∧
  (∃ id, sectionMap_get "process" = Some (Js.Str id) ∧
         getDevTargetBySectionId id = None).
Proof.
  split.
  - intros id key. split.
    + intros H. split.
      * by eapply getDevTargetBySectionId_in.
      * by apply getDevTargetBySectionId_own.
    + intros [Hin Hget]. unfold sectionOrder in Hin. simpl in Hin.
      destruct Hin as [<-|[<-|[<-|[<-|[<-|[]]]]]];
        vm_compute in Hget; injection Hget as <-; reflexivity.
  - eexists. split; reflexivity.
Qed.

Lemma apply_entry_member vis e id key :
  getDevTargetBySectionId id = Some key →
  key ∈ apply_entry vis e ↔
  if String.eqb (target_id e) id then isIntersecting e = true else key ∈ vis.
Proof.
  intros Hk.
  destruct (String.eqb_spec (target_id e) id) as [E|Hne].
  - destruct (apply_entry_cases vis e) as [[_ N]|(k & K & ->)]; [congruence|].
    assert (k = key) as -> by congruence.
    destruct (isIntersecting e); set_solver.
  - destruct (apply_entry_cases vis e) as [[-> _]|(k & K & ->)]; [done|].
    assert (k ≠ key).
    { intros ->. apply Hne. by eapply getDevTargetBySectionId_inj. }
    destruct (isIntersecting e); set_solver.
Qed.

(** X2. Whether an ordered name is visible after a batch is decided by the
    last entry the batch holds for its section: visible if that entry
    intersects, not visible if it does not, and as before the batch if the
    batch has no entry for the section. *)
Theorem visible_after_batch entries vis id key :
  getDevTargetBySectionId id = Some key →
  key ∈ apply_entries entries vis ↔
  match last_report id entries with
  | Some b => b = true
  | None => key ∈ vis
  end.
Proof.
  intros Hk. unfold apply_entries. revert vis.
  induction entries as [|e rest IH]; intros vis; simpl; [done|].
  rewrite IH. destruct (last_report id rest) as [b|]; [done|].
  rewrite (apply_entry_member vis e id key Hk).
  by destruct (String.eqb (target_id e) id).
Qed.

Lemma visible_after_batch_witness :
  "floor-plans" ∈ apply_entries [entry "floor-plans-section" false;
                                 entry "floor-plans-section" true] ∅.
Proof.
  apply (visible_after_batch _ _ "floor-plans-section" "floor-plans");
    reflexivity.
Defined.

(** X3. When a batch leaves some ordered name visible, the callback makes a
    link active exactly when its target name is the first visible name of
    [sectionOrder], whatever was active before (an earlier click included). *)
Theorem batch_sets_links p entries s t :
  activeTarget (apply_entries entries (visibleSections s)) = Some t →
  ∀ j l, links (observer_callback p entries s) !! j = Some l →
         (is_active l = true ↔ dev_target l = t).
Proof.
  intros Ht j l Hl.
  pose proof (observer_callback_unfold p entries s) as E. simpl in E.
  rewrite E, Ht in Hl.
  apply setActiveLink_lookup in Hl as (l0 & _ & Hd & Ha).
  rewrite Ha, Hd. apply String.eqb_eq.
Qed.

Lemma batch_sets_links_witness :
  is_active (sample_link "browse-homes" true 720) = true ↔
  dev_target (sample_link "browse-homes" true 720) = "browse-homes".
Proof.
  apply (batch_sets_links sample_page [entry "lots-section" true]
           (click sample_page 1 (started sample_links)) "browse-homes"
           ltac:(vm_compute; reflexivity) 4%nat).
  reflexivity.
Defined.

(** ** Teardown and the empty page *)

Lemma step_after_destroy s e :
  visibleSections s = ∅ → observer s = false →
  visibleSections (step s e) = ∅ ∧ observer (step s e) = false.
Proof.
  intros Hv Ho. destruct e as [p|p i|p entries|]; simpl.
  - unfold animation_frame. destruct (frame_pending s); [|done].
    destruct (initialActive (links s)) as [i|]; [|done].
    by destruct (links s !! i).
  - unfold click. destruct (links s !! i) as [l|]; [|done].
    unfold click_handler.
    destruct (negb (Js.truthy_string (dev_target l))); [done|].
    destruct (negb (Js.truthy (sectionMap_get (dev_target l)))); [done|].
    destruct (sectionMap_get (dev_target l)) as [v|]; [|done].
    by destruct (getElementById p (Js.to_text v)).
  - by rewrite Ho.
  - done.
Qed.

(** X4. [destroy] is idempotent; after it no sequence of events ever puts a
    name back into the visible set or reconnects the observer, and an
    intersection batch changes nothing at all; the click listeners stay in
    place, so a click still sets the links as it would have. *)
Theorem destroy_is_final s :
  destroy (destroy s) = destroy s ∧
  (∀ events, visibleSections (run (destroy s) events) = ∅ ∧
             observer (run (destroy s) events) = false) ∧
  (∀ p entries, step (destroy s) (Intersections p entries) = destroy s) ∧
  (∀ p i, links (step (destroy s) (Click p i)) = links (step s (Click p i))).
Proof.
  split; [done|]. split; [|split].
  - intros events. unfold run.
    assert (visibleSections (destroy s) = ∅ ∧ observer (destroy s) = false)
      as H by done.
    revert H. generalize (destroy s).
    induction events as [|e rest IH]; intros s0 [Hv Ho]; simpl; [done|].
    apply IH. by apply step_after_destroy.
  - done.
  - intros p i. simpl. unfold click. simpl.
    destruct (links s !! i) as [l|]; [|done].
    destruct (sectionMap_get (dev_target l)) as [v|] eqn:Hv.
    + destruct (getElementById p (Js.to_text v)) as [top|] eqn:Hs.
      * rewrite !(click_handler_mapped _ _ _ _ _ Hv Hs).
        by rewrite !setActiveLink_links.
      * by rewrite !(click_handler_absent _ _ _ _ Hv Hs).
    + by rewrite !(click_handler_unmapped _ _ _ Hv).
Qed.

(** X5. On a page without tab links [init] logs one error and the controller
    stays inert: whatever events follow, the state does not change. *)
Theorem no_links_is_inert p events :
  effects (init p []) = [ConsoleError "StickyNavController: No tab links found."] ∧
  run (init p []) events = init p [].
Proof.
  split; [done|]. unfold run.
  induction events as [|e rest IH]; [done|]. cbn [fold_left].
  assert (step (init p []) e = init p []) as ->; [|exact IH].
  by destruct e as [q|q [|i]|q entries|].
Qed.

Lemma active_lookup_count ls i l :
  ls !! i = Some l → is_active l = true → (1 ≤ count_active ls)%nat.
Proof.
  revert i. induction ls as [|x rest IH]; intros [|i]; simpl; try done.
  - intros [= ->] Ha. rewrite count_active_cons, Ha. lia.
  - intros Hl Ha. rewrite count_active_cons.
    specialize (IH i Hl Ha). lia.
Qed.

Lemma animation_frame_clears p s :
  frame_pending (animation_frame p s) = false.
Proof.
  unfold animation_frame. destruct (frame_pending s) eqn:E; [|exact E].
  destruct (initialActive (links s)) as [i|]; [|done].
  by destruct (links s !! i).
Qed.

(** X6. The frame callback of [init] leaves the links as the markup has them
    when some link is already marked active, and otherwise marks the first
    link and no other; it runs once: a later frame changes nothing. *)
Theorem first_frame_picks_initial_link p markup :
  let s := step (init p markup) (Frame p) in
  (count_active markup ≠ 0%nat → links s = markup) ∧
  (∀ l rest, count_active markup = 0%nat → markup = l :: rest →
             links s = set_active true l :: rest) ∧
  (∀ q, step s (Frame q) = s).
Proof.
  intros s. subst s. simpl. split; [|split].
  - intros Hc.
    destruct (animation_frame_links p (init p markup))
      as [E|(Hz & _)].
    + rewrite E. by destruct markup.
    + destruct markup; simpl in *; done.
  - intros l rest Hz ->. simpl. unfold animation_frame. simpl.
    unfold initialActive.
    destruct (find_index is_active (l :: rest)) as [i|] eqn:F; [|done].
    destruct (find_index_active _ _ F) as (l0 & Hl0 & Ha).
    pose proof (active_lookup_count _ _ _ Hl0 Ha). lia.
  - intros q. unfold animation_frame at 1.
    by rewrite animation_frame_clears.
Qed.

Lemma first_frame_witness :
  links (step (init sample_page twin_links) (Frame sample_page))
  = [sample_link "overview" true 0; sample_link "overview" false 180].
Proof.
  exact (proj1 (proj2 (first_frame_picks_initial_link sample_page twin_links))
           _ _ eq_refl eq_refl).
Defined.

(** ** What the handlers request *)

Lemma setActiveLink_effects_desktop p t s :
  (767 < innerWidth p)%Z → effects (setActiveLink p t s) = effects s.
Proof.
  intros Hw. unfold setActiveLink. simpl.
  assert (concat (map snd (map (setActiveLink_step p t) (links s))) = []) as ->;
    [|apply app_nil_r].
  induction (links s) as [|l rest IH]; simpl; [done|].
  rewrite IH, app_nil_r. unfold scrollLinkIntoStrip.
  apply Z.gtb_lt in Hw. rewrite Hw. by destruct (String.eqb _ _).
Qed.

Lemma filter_strip_app (a b : list Effect) :
  List.filter is_strip_scroll b = [] →
  List.filter is_strip_scroll (a ++ b) = List.filter is_strip_scroll a.
Proof. intros H. by rewrite List.filter_app, H, app_nil_r. Qed.

(** X7. On a viewport wider than 767px no handler ever asks a strip to
    scroll: the frame callback, clicks and observer batches leave the strip
    requests of the log as they were. *)
Theorem desktop_never_scrolls_strip s e :
  (∀ w, event_width e = Some w → (767 < w)%Z) →
  List.filter is_strip_scroll (effects (step s e))
  = List.filter is_strip_scroll (effects s).
Proof.
  intros Hw. destruct e as [p|p i|p entries|]; simpl in *.
  - specialize (Hw _ eq_refl). unfold animation_frame.
    destruct (frame_pending s); [|done].
    destruct (initialActive (links s)) as [i|]; [|done].
    destruct (links s !! i) as [l|]; [|done]. simpl.
    unfold scrollLinkIntoStrip. apply Z.gtb_lt in Hw. rewrite Hw.
    by rewrite app_nil_r.
  - specialize (Hw _ eq_refl).
    unfold click. destruct (links s !! i) as [l|]; [|done].
    destruct (sectionMap_get (dev_target l)) as [v|] eqn:Hv.
    + destruct (getElementById p (Js.to_text v)) as [top|] eqn:Hs.
      * rewrite (click_handler_mapped _ _ _ _ _ Hv Hs).
        rewrite setActiveLink_effects_desktop by done. simpl.
        rewrite <- app_assoc. by apply filter_strip_app.
      * rewrite (click_handler_absent _ _ _ _ Hv Hs). simpl.
        rewrite <- app_assoc. by apply filter_strip_app.
    + rewrite (click_handler_unmapped _ _ _ Hv). by apply filter_strip_app.
  - specialize (Hw _ eq_refl). destruct (observer s); [|done].
    pose proof (observer_callback_unfold p entries s) as E. simpl in E.
    rewrite E. destruct (activeTarget _); [|done].
    by rewrite setActiveLink_effects_desktop.
  - done.
Qed.

Lemma desktop_never_scrolls_strip_witness :
  List.filter is_strip_scroll
    (effects (step (started sample_links) (Click desktop_page 2)))
  = List.filter is_strip_scroll (effects (started sample_links)).
Proof.
  apply (desktop_never_scrolls_strip (started sample_links) (Click desktop_page 2)).
  intros w [= <-]. reflexivity.
Defined.

Lemma filter_window_strip (ss : list Effect) :
  Forall (λ e, ∃ k x, e = StripScrollTo k x) ss →
  List.filter is_window_scroll ss = [].
Proof.
  induction 1 as [|e rest (k & x & ->) _ IH]; simpl; done.
Qed.

(** X8. A click always cancels the default navigation first, requests at most
    one window scroll, and touches neither the visible set nor the observer. *)
Theorem click_effects_shape p i s link :
  links s !! i = Some link →
  (∃ rest, effects (click p i s) = effects s ++ PreventDefault :: rest ∧
           (length (List.filter is_window_scroll rest) ≤ 1)%nat) ∧
  visibleSections (click p i s) = visibleSections s ∧
  observer (click p i s) = observer s.
Proof.
  intros Hi. unfold click. rewrite Hi.
  destruct (sectionMap_get (dev_target link)) as [v|] eqn:Hv.
  - destruct (getElementById p (Js.to_text v)) as [top|] eqn:Hs.
    + rewrite (click_handler_mapped _ _ _ _ _ Hv Hs).
      set (s1 := log _ (log _ s)).
      destruct (setActiveLink_effects p (dev_target link) s1) as (ss & E & F).
      split; [|done]. rewrite E. unfold s1. simpl.
      eexists. rewrite <- !app_assoc. split; [reflexivity|].
      simpl. rewrite (filter_window_strip _ F). simpl. lia.
    + rewrite (click_handler_absent _ _ _ _ Hv Hs). split; [|done].
      simpl. eexists. rewrite <- app_assoc. split; [reflexivity|].
      simpl. lia.
  - rewrite (click_handler_unmapped _ _ _ Hv). split; [|done].
    simpl. eexists. split; [reflexivity|]. simpl. lia.
Qed.

Lemma click_effects_shape_witness :
  visibleSections (click sample_page 1 (started sample_links))
  = visibleSections (started sample_links).
Proof.
  refine (proj1 (proj2 (click_effects_shape sample_page 1 (started sample_links)
                          (sample_link "floor-plans" false 180) _))).
  reflexivity.
Defined.

(** X9. An observer batch never scrolls the window and never logs: the only
    requests it can add are strip scrolls, so scrolling cannot feed back into
    more scrolling of the page. *)
Theorem batch_adds_only_strip_scrolls p entries s :
  ∃ strip_scrolls,
    effects (step s (Intersections p entries)) = effects s ++ strip_scrolls ∧
    Forall (λ e, ∃ k x, e = StripScrollTo k x) strip_scrolls.
Proof.
  simpl. destruct (observer s).
  - pose proof (observer_callback_unfold p entries s) as E. simpl in E.
    rewrite E. destruct (activeTarget _) as [t|].
    + apply (setActiveLink_effects p t (with_visible _ s)).
    + exists []. split; [by rewrite app_nil_r|constructor].
  - exists []. split; [by rewrite app_nil_r|constructor].
Qed.

(** Activations do not accumulate: after two calls of [setActiveLink] the
    links are as after the second alone, and repeating a call changes no
    link. *)
Theorem last_activation_wins p q t1 t2 s :
  links (setActiveLink q t2 (setActiveLink p t1 s))
  = links (setActiveLink q t2 s) ∧
  links (setActiveLink q t1 (setActiveLink p t1 s))
  = links (setActiveLink p t1 s).
Proof.
  rewrite !setActiveLink_links, !map_map. split; reflexivity.
Qed.

(** ** The strip at its ends, and the bundled build *)

Lemma half (x : Q) : (x / 2 == x * (1 # 2))%Q.
Proof. reflexivity. Qed.

Lemma clamp_below (t m : Q) :
  (0 <= m)%Q → (t <= 0)%Q → (Qmin (Qmax 0 t) m == 0)%Q.
Proof.
  intros Hm Ht.
  assert (Qmax 0 t == 0)%Q as E by (by apply Q.max_l).
  assert (Qmax 0 t <= m)%Q as L by (by rewrite E).
  by rewrite (Q.min_l _ _ L).
Qed.

Lemma clamp_above (t m : Q) :
  (0 <= m)%Q → (m <= t)%Q → (Qmin (Qmax 0 t) m == m)%Q.
Proof.
  intros Hm Ht.
  assert (0 <= t)%Q as H0 by (by apply Qle_trans with m).
  assert (Qmax 0 t == t)%Q as E by (by apply Q.max_r).
  assert (m <= Qmax 0 t)%Q as L by (by rewrite E).
  by rewrite (Q.min_r _ _ L).
Qed.

(** X10. On a strip at least as wide as its links and with no negative scroll
    range, the first link (at the strip's left edge) asks for offset 0 and the
    last link (ending at the strip's scroll width) asks for the largest
    offset: the ends of the strip are never scrolled past. *)
Theorem strip_pinned_at_ends l strip :
  (strip_offsetWidth strip ≤ strip_scrollWidth strip)%Z →
  (offsetWidth l ≤ strip_offsetWidth strip)%Z →
  (offsetLeft l = 0%Z → (strip_left l strip == 0)%Q) ∧
  ((offsetLeft l + offsetWidth l)%Z = strip_scrollWidth strip →
   (strip_left l strip == maxScroll strip)%Q).
Proof.
  intros Hs Hw.
  assert (0 <= maxScroll strip)%Q as Hm.
  { unfold maxScroll. change 0%Q with (inject_Z 0). rewrite <- Zle_Qle. lia. }
  assert (inject_Z (offsetWidth l) <= inject_Z (strip_offsetWidth strip))%Q
    as Hw' by (by rewrite <- Zle_Qle).
  split.
  - intros H0. apply clamp_below; [exact Hm|].
    unfold targetScrollLeft. rewrite H0, !half.
    change (inject_Z 0) with 0%Q. lra.
  - intros Hend. apply clamp_above; [exact Hm|].
    unfold maxScroll, targetScrollLeft. rewrite <- Hend.
    unfold Z.sub. rewrite !inject_Z_plus, inject_Z_opp, !half. lra.
Qed.

Lemma strip_pinned_at_ends_witness :
  (strip_left (sample_link "overview" true 0) sample_strip == 0)%Q.
Proof.
  refine (proj1 (strip_pinned_at_ends (sample_link "overview" true 0)
                   sample_strip _ _) _).
  - vm_compute. discriminate.
  - vm_compute. discriminate.
  - reflexivity.
Defined.

(** X11. The bundled build of [scrollLinkIntoStrip] asks for the plain
    centring offset.  Both builds do nothing above 767px, and where the
    centring offset already lies in the strip's scroll range they ask for the
    same offset: the two differ only where the source clamps. *)
Theorem bundle_agrees_inside_range p l strip :
  tab_left l = Some strip →
  ((767 < innerWidth p)%Z →
   scrollLinkIntoStrip p l = [] ∧ scrollLinkIntoStrip_bundle p l = []) ∧
  ((innerWidth p ≤ 767)%Z →
   ∃ a b,
     scrollLinkIntoStrip p l = [StripScrollTo (strip_id strip) a] ∧
     scrollLinkIntoStrip_bundle p l = [StripScrollTo (strip_id strip) b] ∧
     (b == targetScrollLeft l strip)%Q ∧
     (in_scroll_range strip b → (a == b)%Q)).
Proof.
  intros Hstrip. unfold scrollLinkIntoStrip, scrollLinkIntoStrip_bundle.
  rewrite Hstrip. split.
  - intros H. apply Z.gtb_lt in H. by rewrite H.
  - intros H. destruct (innerWidth p >? 767)%Z eqn:E.
    { apply Z.gtb_lt in E. lia. }
    eexists _, _. split; [reflexivity|]. split; [reflexivity|].
    assert (inject_Z (offsetLeft l) - inject_Z (strip_offsetWidth strip) / 2
            + inject_Z (offsetWidth l) / 2 == targetScrollLeft l strip)%Q as Eb.
    { unfold targetScrollLeft. rewrite !half. lra. }
    split; [exact Eb|].
    intros [H0 H1]. rewrite Eb in *. unfold strip_left.
    rewrite (Q.max_r _ _ H0). by apply Q.min_l.
Qed.

Lemma bundle_agrees_inside_range_witness :
  ∃ a b,
    scrollLinkIntoStrip sample_page (sample_link "amentities" true 360)
    = [StripScrollTo 0 a] ∧
    scrollLinkIntoStrip_bundle sample_page (sample_link "amentities" true 360)
    = [StripScrollTo 0 b] ∧
    (b == targetScrollLeft (sample_link "amentities" true 360) sample_strip)%Q ∧
    (in_scroll_range sample_strip b → (a == b)%Q).
Proof.
  refine (proj2 (bundle_agrees_inside_range sample_page
                   (sample_link "amentities" true 360) sample_strip _) _).
  - reflexivity.
  - vm_compute. discriminate.
Defined.

(** ** What [init] reports *)

Lemma observe_errors_unfold p :
  observe_errors p =
  flat_map (λ id, match getElementById p id with
                  | Some _ => []
                  | None => [ConsoleError ("StickyNavController: Section #"
                                           ++ id ++ " not found in DOM.")]
                  end)
    ["overview-section"; "floor-plans-section"; "amentities-section";
     "personalization-section"; "lots-section"].
Proof. reflexivity. Qed.

(** X12. With links on the page, [init] logs nothing exactly when the
    document holds the section of every ordered target; the section of
    process, which is mapped but not ordered, is never looked for. *)
Theorem init_silent_iff_sections_present p l rest :
  effects (init p (l :: rest)) = [] ↔ all_sections_present p.
Proof.
  simpl. rewrite observe_errors_unfold. unfold all_sections_present.
  unfold sectionOrder. rewrite !Forall_cons, Forall_nil. simpl.
  split.
  - intros H.
    destruct (getElementById p "overview-section") eqn:E1; [|discriminate H].
    destruct (getElementById p "floor-plans-section") eqn:E2; [|discriminate H].
    destruct (getElementById p "amentities-section") eqn:E3; [|discriminate H].
    destruct (getElementById p "personalization-section") eqn:E4;
      [|discriminate H].
    destruct (getElementById p "lots-section") eqn:E5; [|discriminate H].
    repeat split; eexists; (split; [reflexivity|]); by eexists.
  - intros ((i1 & G1 & [x1 H1]) & (i2 & G2 & [x2 H2]) & (i3 & G3 & [x3 H3])
            & (i4 & G4 & [x4 H4]) & (i5 & G5 & [x5 H5]) & _).
    vm_compute in G1, G2, G3, G4, G5.
    injection G1 as <-. injection G2 as <-. injection G3 as <-.
    injection G4 as <-. injection G5 as <-.
    by rewrite H1, H2, H3, H4, H5.
Qed.

End NavMore.

(** * Further properties of the gallery *)

Module GalleryMore.
Import Gallery GalleryFacts.

(** ** Opening *)

Lemma truthy_or_empty (x : string) :
  (if Js.truthy_string x then x else "") = x.
Proof.
  unfold Js.truthy_string. by destruct (String.eqb_spec x "") as [->|_].
Qed.

Lemma main_slides_copy (imgs : list Dom.Elem) :
  map slide_src (map main_slide imgs) = map Dom.src imgs ∧
  map slide_alt (map main_slide imgs) = map Dom.alt imgs ∧
  map slide_srcset (map main_slide imgs) = map Dom.srcset imgs ∧
  map slide_sizes (map main_slide imgs) = map Dom.sizes imgs.
Proof.
  rewrite !map_map. simpl. repeat split; try done;
    apply map_ext; intros img; apply truthy_or_empty.
Qed.

Lemma thumb_slides_copy (imgs : list Dom.Elem) :
  map slide_src (map thumb_slide imgs) = map Dom.src imgs ∧
  map slide_alt (map thumb_slide imgs) = map Dom.alt imgs ∧
  Forall (λ t, slide_srcset t = "" ∧ slide_sizes t = "") (map thumb_slide imgs).
Proof.
  rewrite !map_map. simpl. repeat split; try done.
  induction imgs; constructor; done.
Qed.

(** X13. [open] builds a closed overlay with one main slide and one thumbnail
    per image, in the order given: the main slides copy source, alt text,
    srcset and sizes, the thumbnails source and alt text only.  It locks the
    page scroll, starts the main slider at the requested slide and loops it
    only when there is more than one image; the next animation frame marks the
    overlay open. *)
Theorem open_builds_overlay imgs k s :
  let u := next_overlay s in
  let s' := open imgs k s in
  (∃ o, heap s' !! u = Some o ∧ is_open o = false ∧
        map slide_src (main_slides o) = map Dom.src imgs ∧
        map slide_alt (main_slides o) = map Dom.alt imgs ∧
        map slide_srcset (main_slides o) = map Dom.srcset imgs ∧
        map slide_sizes (main_slides o) = map Dom.sizes imgs ∧
        map slide_src (thumb_slides o) = map Dom.src imgs ∧
        map slide_alt (thumb_slides o) = map Dom.alt imgs ∧
        Forall (λ t, slide_srcset t = "" ∧ slide_sizes t = "") (thumb_slides o)) ∧
  overlay s' = Some u ∧
  body_overflow s' = "hidden" ∧
  initialSlide <$> swiper s' = Some k ∧
  loop <$> swiper s' = Some (bool_decide (1 < length imgs)%nat) ∧
  is_open <$> heap (animation_frame s') !! u = Some true.
Proof.
  intros u s'. subst u s'.
  destruct (close_frame s) as (_ & _ & Hn).
  destruct (main_slides_copy imgs) as (M1 & M2 & M3 & M4).
  destruct (thumb_slides_copy imgs) as (T1 & T2 & T3).
  unfold open, animation_frame. cbn -[main_slide thumb_slide Nat.ltb].
  rewrite Hn. rewrite lookup_alter_eq, !lookup_insert_eq.
  cbn -[main_slide thumb_slide Nat.ltb].
  repeat split; try done.
  - eexists. split; [reflexivity|]. by cbn -[main_slide thumb_slide].
  - f_equal. destruct (Nat.ltb_spec 1 (length imgs));
      [by rewrite bool_decide_eq_true_2|by rewrite bool_decide_eq_false_2; [|lia]].
Qed.

(** X14. A click on a trigger opens nothing unless it lands on an image and
    the gallery's cache is not empty: otherwise overlays, sliders and caches
    stay as they are, and only the empty cache is reported.  When it does open,
    the new overlay shows the cached images in cache order, from the first
    slide. *)
Theorem trigger_click_outcome config on_img s :
  let s' := trigger_listener config on_img s in
  (on_img = false ∨ cache config s = [] →
   body s' = body s ∧ overlay s' = overlay s ∧ heap s' = heap s ∧
   swiper s' = swiper s ∧ caches s' = caches s ∧
   length (List.filter is_console_error (effects s'))
   = (length (List.filter is_console_error (effects s))
      + if on_img then 1 else 0)%nat) ∧
  (on_img = true → cache config s ≠ [] →
   overlay s' = Some (next_overlay s) ∧
   shown (next_overlay s) s' = Some (map Dom.src (cache config s)) ∧
   initialSlide <$> swiper s' = Some 0%nat ∧
   effects s' = effects s).
Proof.
  intros s'. subst s'. unfold trigger_listener. fold (cache config s). split.
  - intros [->|Hc]; simpl; [repeat split; lia|].
    rewrite Hc. destruct on_img; simpl; [|repeat split; lia].
    repeat split; try done.
    rewrite List.filter_app, length_app. simpl. lia.
  - intros -> Hc. simpl.
    destruct (cache config s) as [|img rest] eqn:E; [done|].
    destruct (open_builds_overlay (img :: rest) 0 s)
      as ((o & Ho & _ & Hsrc & _) & Hov & _ & Hk & _).
    split; [exact Hov|]. split; [|split; [exact Hk|]].
    + unfold shown. rewrite Ho. simpl. by rewrite Hsrc.
    + unfold open, close. by destruct (overlay s).
Qed.

Lemma trigger_click_outcome_witness :
  shown 0 (trigger_listener main_config true (init sample_doc))
  = Some ["kitchen.jpg"; "porch.jpg"].
Proof.
  refine (proj1 (proj2 (proj2 (trigger_click_outcome main_config true
                                 (init sample_doc)) _ _))).
  - reflexivity.
  - vm_compute. discriminate.
Defined.

(** ** Bookkeeping of overlays *)

Lemma consistent_same s s' :
  body s' = body s → next_overlay s' = next_overlay s →
  overlay s' = overlay s → swiper s' = swiper s →
  thumbsSwiper s' = thumbsSwiper s →
  (∀ u, is_Some (heap s !! u) → is_Some (heap s' !! u)) →
  consistent s → consistent s'.
Proof.
  intros Hb Hn Ho Hs Ht Hh (C1 & C2 & C3 & C4 & C5 & C6 & C7 & C8).
  unfold consistent. rewrite Hb, Hn, Ho, Hs, Ht.
  do 2 (split; [done|]). split; [|done].
  intros u Hu. destruct (C3 u Hu) as [Hin Hsome]. split; [done|by apply Hh].
Qed.

Lemma consistent_close s : consistent s → consistent (close s).
Proof.
  unfold close. destruct (overlay s) as [u|] eqn:E; [|done].
  apply consistent_same; simpl; try done.
  intros v. rewrite lookup_alter_is_Some. done.
Qed.

Lemma consistent_open imgs k s : consistent s → consistent (open imgs k s).
Proof.
  intros H. apply consistent_close in H.
  destruct H as (C1 & C2 & C3 & _). unfold open, consistent. simpl.
  set (t := close s) in *.
  split; [|split; [|split; [|split; [|split; [|split; [|split]]]]]]; try done.
  - apply NoDup_app. split; [done|]. split; [|apply NoDup_singleton].
    intros x Hx%list_elem_of_In Hx'%list_elem_of_singleton. subst x.
    specialize (C2 _ Hx). lia.
  - intros u [Hu|[<-|[]]]%in_app_or; [specialize (C2 _ Hu)|]; lia.
  - intros u [= <-]. split; [apply in_or_app; right; by left|].
    rewrite lookup_insert_eq. by eexists.
  - intros t0 m [= <-] [= <-]. done.
  - intros m u [= <-] Ha [= <-]. unfold is_array in Ha. simpl in Ha.
    apply Nat.ltb_ge in Ha. rewrite length_app in Ha. simpl in Ha.
    destruct (body t); [done|simpl in Ha; lia].
Qed.

Lemma filter_out_only (u : nat) :
  List.filter (λ x, negb (Nat.eqb x u)) [u] = [].
Proof. simpl. by rewrite Nat.eqb_refl. Qed.

Lemma consistent_onTransitionEnd s :
  consistent s → consistent (onTransitionEnd s).
Proof.
  intros H. pose proof H as (C1 & C2 & C3 & C4 & C5 & C6 & C7 & C8).
  unfold onTransitionEnd, destroy_thumbs.
  destruct (thumbsSwiper s) as [t|] eqn:Et.
  - destruct (is_array t) eqn:At.
    { revert H. by apply consistent_same. }
    unfold destroy_main. cbn [swiper].
    destruct (swiper s) as [m|] eqn:Em.
    + assert (is_array m = false) as Am.
      { unfold is_array in *. by rewrite <- (C7 t m eq_refl eq_refl). }
      rewrite Am. unfold remove_overlay, consistent. simpl.
      destruct (overlay s) as [u|] eqn:Eo.
      * rewrite (C8 m u eq_refl Am eq_refl), filter_out_only.
        split; [constructor|]. do 5 (split; [done|]). done.
      * destruct C4 as [C4 _]. by specialize (C4 eq_refl).
    + destruct C4 as [_ C4]. specialize (C4 eq_refl).
      destruct C5 as [C5 _]. by specialize (C5 C4).
  - assert (overlay s = None) as Eo by (by apply C5).
    assert (swiper s = None) as Em by (by apply C4).
    unfold destroy_main. rewrite Em. unfold remove_overlay, consistent. simpl.
    rewrite Eo, Et, Em, (C6 Eo).
    split; [constructor|]. do 5 (split; [done|]). done.
Qed.

Lemma consistent_refreshes (os : list Observer) s :
  consistent s →
  consistent (fold_left (λ s o, refresh (obs_config o) s) os s).
Proof.
  revert s. induction os as [|o rest IH]; intros s H; simpl; [done|].
  by apply IH.
Qed.

Lemma consistent_step s e : consistent s → consistent (step s e).
Proof.
  intros H. destruct e as [path f|target| |v| |]; simpl.
  - unfold mutate. destruct (Dom.node_at path (doc s)); [|done].
    by apply consistent_refreshes.
  - apply (click_ind consistent); [|done].
    intros c b s0 H0. unfold trigger_listener. destruct (negb b); [done|].
    destruct (default [] (caches s0 !! trigger c)) eqn:E; [done|].
    by apply consistent_open.
  - by apply consistent_close.
  - unfold transitionend. destruct (heap s !! v) as [o|]; [|done].
    assert (consistent
              {| doc := doc s; caches := caches s; observers := observers s;
                 bound := bound s; overlay := overlay s; swiper := swiper s;
                 thumbsSwiper := thumbsSwiper s;
                 heap := alter clear_listeners v (heap s); body := body s;
                 body_overflow := body_overflow s; frames := frames s;
                 next_overlay := next_overlay s; effects := effects s |}) as H'.
    { revert H. apply consistent_same; simpl; try done.
      intros u. by rewrite lookup_alter_is_Some. }
    revert H'. generalize (transitionend_once o). intros n.
    induction n as [|n IH]; intros H'; simpl; [done|].
    by apply consistent_onTransitionEnd, IH.
  - unfold animation_frame. destruct (frames s); [done|].
    revert H. apply consistent_same; simpl; try done.
    intros u. destruct (overlay s); [|done]. by rewrite lookup_alter_is_Some.
  - unfold destroy. by apply consistent_close.
Qed.

Lemma consistent_init d : consistent (init d).
Proof.
  assert (∀ s c, consistent s → consistent (init_config s c)) as Hc.
  { intros s c. apply consistent_same; try done;
      unfold init_config, bindTrigger, observeImages; simpl;
      by destruct (Dom.querySelector_class _ _). }
  unfold init, GALLERY_CONFIGS. cbn [fold_left].
  apply Hc, Hc. unfold consistent, fresh. simpl.
  split; [constructor|]. do 6 (split; [done|]). done.
Qed.

Lemma consistent_run d events : consistent (run (init d) events).
Proof.
  unfold run. generalize (consistent_init d). generalize (init d).
  induction events as [|e rest IH]; intros s H; simpl; [done|].
  by apply IH, consistent_step.
Qed.

(** X15. In every state reached from [init]: the overlays attached to the
    document are pairwise distinct, the overlay the controller refers to is
    attached, and the two sliders exist exactly while the controller refers to
    an overlay. *)
Theorem overlays_stay_consistent d events :
  let s := run (init d) events in
  NoDup (body s) ∧
  (∀ u, overlay s = Some u → In u (body s) ∧ is_Some (heap s !! u)) ∧
  (overlay s = None ↔ swiper s = None) ∧
  (overlay s = None ↔ thumbsSwiper s = None).
Proof.
  intros s. destruct (consistent_run d events) as (C1 & _ & C3 & C4 & C5 & _).
  done.
Qed.

(** ** Closing *)

Lemma close_nothing_open s : overlay s = None → close s = s.
Proof. intros H. unfold close. by rewrite H. Qed.

Lemma close_some t u :
  overlay t = Some u →
  overlay (close t) = Some u ∧ body (close t) = body t ∧
  swiper (close t) = swiper t ∧ thumbsSwiper (close t) = thumbsSwiper t ∧
  effects (close t) = effects t ∧
  heap (close t) = alter close_overlay u (heap t) ∧
  body_overflow (close t) = "".
Proof. intros H. unfold close. by rewrite H. Qed.

Lemma animation_frame_some t u :
  overlay t = Some u →
  overlay (animation_frame t) = Some u ∧
  body (animation_frame t) = body t ∧
  swiper (animation_frame t) = swiper t ∧
  thumbsSwiper (animation_frame t) = thumbsSwiper t ∧
  effects (animation_frame t) = effects t ∧
  body_overflow (animation_frame t) = body_overflow t ∧
  (heap (animation_frame t) = heap t ∨
   heap (animation_frame t) = alter set_open u (heap t)).
Proof.
  intros H. unfold animation_frame. destruct (frames t); simpl; rewrite ?H;
    repeat (split; [done|]); [by left|by right].
Qed.

Lemma closing_after_run s0 u mid n c :
  Forall (λ e, e = Frame ∨ e = CloseRequest) mid →
  closing_after s0 u n c →
  closing_after s0 u (n + close_requests mid) (run c mid).
Proof.
  unfold run. intros Hmid. revert n c.
  induction Hmid as [|e rest [->| ->] _ IH]; intros n c Hc; simpl.
  - by rewrite Nat.add_0_r.
  - apply IH. destruct Hc as (H1 & H2 & H3 & H4 & H5 & (o & H6 & H7) & H8).
    destruct (animation_frame_some c u H1)
      as (F1 & F2 & F3 & F4 & F5 & F6 & F7).
    unfold closing_after. rewrite F1, F2, F3, F4, F5, F6.
    do 5 (split; [done|]). split; [|done].
    destruct F7 as [->| ->]; [by exists o|].
    exists (set_open o). by rewrite lookup_alter_eq, H6.
  - rewrite <- Nat.add_succ_comm. apply IH.
    destruct Hc as (H1 & H2 & H3 & H4 & H5 & (o & H6 & H7) & H8).
    destruct (close_some c u H1) as (K1 & K2 & K3 & K4 & K5 & K6 & K7).
    unfold closing_after. rewrite K1, K2, K3, K4, K5, K6, K7.
    do 5 (split; [done|]). split; [|done].
    exists (close_overlay o). rewrite lookup_alter_eq, H6. simpl. by rewrite H7.
Qed.

Lemma close_requests_pos mid :
  In CloseRequest mid → (1 ≤ close_requests mid)%nat.
Proof.
  induction mid as [|e rest IH]; simpl; [done|].
  intros [->|H]; [lia|]. specialize (IH H). destruct e; lia.
Qed.

Lemma onTransitionEnd_idle t :
  overlay t = None → swiper t = None → thumbsSwiper t = None →
  body (onTransitionEnd t) = body t ∧ overlay (onTransitionEnd t) = None ∧
  swiper (onTransitionEnd t) = None ∧ thumbsSwiper (onTransitionEnd t) = None ∧
  body_overflow (onTransitionEnd t) = body_overflow t ∧
  effects (onTransitionEnd t) = effects t.
Proof.
  intros Ho Hs Ht. unfold onTransitionEnd, destroy_thumbs. rewrite Ht.
  unfold destroy_main. rewrite Hs. unfold remove_overlay. simpl.
  by rewrite Ho, Hs, Ht.
Qed.

Lemma iter_onTransitionEnd_idle m t :
  overlay t = None → swiper t = None → thumbsSwiper t = None →
  let r := Nat.iter m onTransitionEnd t in
  body r = body t ∧ overlay r = None ∧ swiper r = None ∧
  thumbsSwiper r = None ∧ body_overflow r = body_overflow t ∧
  effects r = effects t.
Proof.
  intros Ho Hs Ht. cbv zeta. induction m as [|m IH]; [done|].
  change (Nat.iter (S m) onTransitionEnd t)
    with (onTransitionEnd (Nat.iter m onTransitionEnd t)).
  destruct IH as (I1 & I2 & I3 & I4 & I5 & I6).
  destruct (onTransitionEnd_idle _ I2 I3 I4) as (J1 & J2 & J3 & J4 & J5 & J6).
  rewrite J1, J2, J3, J4, J5, J6. done.
Qed.

(** The listener on the only attached overlay, with single-instance sliders:
    both are destroyed and the overlay is removed. *)
Lemma onTransitionEnd_single c u t m :
  overlay c = Some u → body c = [u] →
  thumbsSwiper c = Some t → swiper c = Some m →
  is_array t = false → is_array m = false →
  body (onTransitionEnd c) = [] ∧ overlay (onTransitionEnd c) = None ∧
  swiper (onTransitionEnd c) = None ∧ thumbsSwiper (onTransitionEnd c) = None ∧
  body_overflow (onTransitionEnd c) = body_overflow c ∧
  effects (onTransitionEnd c) = effects c ++ [SwiperDestroy t; SwiperDestroy m].
Proof.
  intros Ho Hb Ht Hm At Am. unfold onTransitionEnd, destroy_thumbs.
  rewrite Ht, At. unfold destroy_main. cbn [swiper]. rewrite Hm, Am.
  unfold remove_overlay. simpl. rewrite Ho, Hb, filter_out_only.
  by rewrite <- app_assoc.
Qed.

(** X16. Opening a gallery when none is open and then closing it is a clean
    cycle, however frames and close requests (Escape, the close button, the
    backdrop) interleave before the close transition ends, as long as one
    close request is among them: the overlay stays the only one attached until
    the transition ends; then both sliders are destroyed once, the overlay is
    removed, the page scroll is restored and no overlay is left.  [close] does
    not cancel the frame callback of [open]: a frame that comes after the
    close request marks the closing overlay open again. *)
Theorem open_close_cycle d events imgs k mid :
  let s := run (init d) events in
  overlay s = None →
  Forall (λ e, e = Frame ∨ e = CloseRequest) mid →
  In CloseRequest mid →
  let u := next_overlay s in
  let closing := run (open imgs k s) mid in
  let s' := step closing (TransitionEnd u) in
  body s = [] ∧
  (overlay closing = Some u ∧ body closing = [u] ∧ body_overflow closing = "") ∧
  (body s' = [] ∧ overlay s' = None ∧
   swiper s' = None ∧ thumbsSwiper s' = None ∧ body_overflow s' = "") ∧
  (∃ thumbs main,
     thumbsSwiper (open imgs k s) = Some thumbs ∧
     swiper (open imgs k s) = Some main ∧
     effects s' = effects s ++ [SwiperDestroy thumbs; SwiperDestroy main]) ∧
  is_open <$> heap (run (open imgs k s) [CloseRequest; Frame]) !! u = Some true.
Proof.
  intros s Hnone Hmid Hclose u closing s'. subst closing s'.
  destruct (consistent_run d events) as (_ & _ & _ & _ & _ & C6 & _).
  fold s in C6. specialize (C6 Hnone). subst u. clearbody s.
  split; [exact C6|].
  set (u := next_overlay s).
  set (s0 := open imgs k s).
  assert (∃ t m, thumbsSwiper s0 = Some t ∧ swiper s0 = Some m ∧
                 is_array t = false ∧ is_array m = false ∧
                 effects s0 = effects s ∧ frames s0 = S (frames s) ∧
                 closing_after s0 u 0 s0) as (t & m & O1 & O2 & O3 & O4 & O5 & O6 & O7).
  { unfold s0, open. rewrite (close_nothing_open s Hnone). simpl.
    eexists _, _. do 2 (split; [reflexivity|]).
    unfold is_array. simpl. rewrite C6. simpl.
    do 4 (split; [done|]). unfold closing_after. simpl.
    do 5 (split; [done|]). split; [|lia].
    rewrite lookup_insert_eq. by eexists. }
  pose proof (closing_after_run s0 u mid 0 s0 Hmid O7)
    as (H1 & H2 & H3 & H4 & H5 & (o & H6 & H7) & H8).
  pose proof (close_requests_pos mid Hclose) as Hn. simpl in H7, H8.
  split; [by rewrite H1, H2, H8|].
  assert (∃ n', close_requests mid = S n') as [n' En].
  { destruct (close_requests mid); [lia|by eexists]. }
  cbn [step]. unfold transitionend. rewrite H6, H7, En, Nat.iter_succ_r.
  set (c := {| doc := doc (run s0 mid) |}).
  destruct (onTransitionEnd_single c u t m)
    as (F1 & F2 & F3 & F4 & F5 & F6); try done;
    [unfold c; simpl; congruence..|].
  destruct (iter_onTransitionEnd_idle n' (onTransitionEnd c) F2 F3 F4)
    as (R1 & R2 & R3 & R4 & R5 & R6).
  rewrite R1, R2, R3, R4, R5, R6, F1, F5, F6.
  split; [by rewrite <- H8 by lia|]. split.
  - exists t, m. do 2 (split; [done|]). unfold c. simpl. by rewrite H5, O5.
  - unfold run. cbn [fold_left step].
    destruct O7 as (P1 & _ & _ & _ & _ & (o0 & P6 & _) & _).
    destruct (close_some s0 u P1) as (K1 & _ & _ & _ & _ & K6 & _).
    unfold animation_frame.
    assert (frames (close s0) = S (frames s)) as ->.
    { unfold close. rewrite P1. simpl. exact O6. }
    cbn [heap]. rewrite K1, K6, !lookup_alter_eq, P6. done.
Qed.

Lemma open_close_cycle_witness :
  body (step (run (open (cache main_config (init sample_doc)) 0 (init sample_doc))
                  [Frame; CloseRequest; Frame; CloseRequest])
             (TransitionEnd 0))
  = [].
Proof.
  refine (proj1 (proj1 (proj2 (proj2
    (open_close_cycle sample_doc [] (cache main_config (init sample_doc)) 0
       [Frame; CloseRequest; Frame; CloseRequest] _ _ _))))).
  - reflexivity.
  - repeat constructor; tauto.
  - simpl. tauto.
Defined.

(** ** Caches *)

Lemma fold_refresh_other (os : list Observer) k s :
  (∀ o, In o os → trigger (obs_config o) ≠ k) →
  caches (fold_left (λ s o, refresh (obs_config o) s) os s) !! k
  = caches s !! k.
Proof.
  revert s. induction os as [|o rest IH]; intros s H; simpl; [done|].
  rewrite IH by (intros o' Ho'; apply H; by right).
  simpl. apply lookup_insert_ne. apply H. by left.
Qed.

Lemma close_caches s : caches (close s) = caches s.
Proof. unfold close. by destruct (overlay s). Qed.

Lemma trigger_listener_caches c b s :
  caches (trigger_listener c b s) = caches s.
Proof.
  unfold trigger_listener. destruct (negb b); [done|].
  destruct (default [] (caches s !! trigger c)); [done|].
  unfold open. simpl. apply close_caches.
Qed.

Lemma iter_onTransitionEnd_caches n s :
  caches (Nat.iter n onTransitionEnd s) = caches s.
Proof.
  induction n as [|n IH]; simpl; [done|].
  destruct (onTransitionEnd_keeps (Nat.iter n onTransitionEnd s))
    as (_ & -> & _). exact IH.
Qed.

Lemma step_cache_unnotified s e k :
  (∀ path f, e = Mutation path f → ¬ refreshes k path s) →
  caches (step s e) !! k = caches s !! k.
Proof.
  intros Hq. destruct e as [path f|target| |v| |]; simpl.
  - unfold mutate. destruct (Dom.node_at path (doc s)); [|done].
    rewrite fold_refresh_other; [done|].
    intros o Ho Hk. apply List.filter_In in Ho as [Ho Hn].
    apply (Hq path f eq_refl). by exists o.
  - apply (click_ind (λ s0, caches s0 !! k = caches s !! k)); [|done].
    intros c b s0 H0. by rewrite trigger_listener_caches.
  - by rewrite close_caches.
  - unfold transitionend. destruct (heap s !! v); [|done].
    by rewrite iter_onTransitionEnd_caches.
  - unfold animation_frame. by destruct (frames s).
  - unfold destroy. by rewrite close_caches.
Qed.

(** X17. A gallery's cache changes only when a mutation is delivered to an
    observer of that gallery: clicks, close requests, transitions, frames and
    [destroy] never touch it, and neither does a mutation outside its watched
    container.  Mutations in one gallery's list therefore leave the other
    gallery's cache alone, and a mutation elsewhere on the page leaves a cache
    as stale as it was. *)
Theorem cache_changes_only_when_notified s e k :
  (∀ path f, e = Mutation path f → ¬ refreshes k path s) →
  caches (step s e) !! k = caches s !! k.
Proof. apply step_cache_unnotified. Qed.

Lemma cache_changes_only_when_notified_witness :
  caches (step (init sample_doc) (Mutation main_list_path three_more))
    !! "community-gallery"
  = caches (init sample_doc) !! "community-gallery".
Proof.
  apply cache_changes_only_when_notified.
  intros path f [= <- <-] (o & Ho & Hn & Hk).
  vm_compute in Ho. destruct Ho as [<-|[<-|[]]]; vm_compute in Hn, Hk;
    discriminate.
Defined.

Lemma step_unobserved s e :
  observers s = [] →
  observers (step s e) = [] ∧ caches (step s e) = caches s.
Proof.
  intros Ho. split.
  - destruct e as [path f|target| |v| |]; simpl.
    + unfold mutate. destruct (Dom.node_at path (doc s)); [|done].
      by rewrite fold_refresh_observers.
    + apply (click_ind (λ s0, observers s0 = [])); [|done].
      intros c b s0 H0. by rewrite trigger_listener_observers.
    + by rewrite close_observers.
    + unfold transitionend. destruct (heap s !! v); [|done].
      by rewrite iter_onTransitionEnd_observers.
    + unfold animation_frame. by destruct (frames s).
    + unfold destroy. by rewrite close_observers.
  - apply map_eq. intros k. apply step_cache_unnotified.
    intros path f _ (o & Hin & _). rewrite Ho in Hin. destruct Hin.
Qed.

(** X18. After [destroy] the caches are frozen: no later mutation of the
    page, wherever it happens, refreshes them, and no observer comes back.
    [destroy] itself keeps the caches. *)
Theorem destroy_freezes_caches s events :
  observers (run (destroy s) events) = [] ∧
  caches (run (destroy s) events) = caches s.
Proof.
  assert (observers (destroy s) = [] ∧ caches (destroy s) = caches s) as H.
  { unfold destroy. by rewrite close_observers, close_caches. }
  revert H. unfold run. generalize (destroy s).
  induction events as [|e rest IH]; intros s0 [Ho Hc]; simpl; [done|].
  destruct (step_unobserved s0 e Ho) as [Ho' Hc'].
  apply IH. split; [done|congruence].
Qed.

(** ** What [init] binds *)

Lemma close_bound s : bound (close s) = bound s.
Proof. unfold close. by destruct (overlay s). Qed.

Lemma fold_refresh_bound (os : list Observer) s :
  bound (fold_left (λ s o, refresh (obs_config o) s) os s) = bound s.
Proof.
  revert s. induction os as [|o rest IH]; intros s; simpl; [done|].
  by rewrite IH.
Qed.

Lemma trigger_listener_bound c b s : bound (trigger_listener c b s) = bound s.
Proof.
  unfold trigger_listener. destruct (negb b); [done|].
  destruct (default [] _); [done|]. unfold open. simpl. apply close_bound.
Qed.

Lemma iter_onTransitionEnd_bound n s :
  bound (Nat.iter n onTransitionEnd s) = bound s.
Proof.
  induction n as [|n IH]; simpl; [done|].
  destruct (onTransitionEnd_keeps (Nat.iter n onTransitionEnd s))
    as (_ & _ & _ & -> & _). exact IH.
Qed.

Lemma step_bound_observers s e :
  bound (step s e) = bound s ∧
  (∀ o, In o (observers (step s e)) → In o (observers s)).
Proof.
  destruct e as [path f|target| |v| |]; simpl.
  - unfold mutate. destruct (Dom.node_at path (doc s)); [|done].
    by rewrite fold_refresh_observers, fold_refresh_bound.
  - apply (click_ind (λ s0, bound s0 = bound s ∧
                            (∀ o, In o (observers s0) → In o (observers s))));
      [|done].
    intros c b s0 [H1 H2].
    by rewrite trigger_listener_bound, trigger_listener_observers.
  - by rewrite close_bound, close_observers.
  - unfold transitionend. destruct (heap s !! v); [|done].
    by rewrite iter_onTransitionEnd_observers, iter_onTransitionEnd_bound.
  - unfold animation_frame. by destruct (frames s).
  - unfold destroy. rewrite close_bound, close_observers. simpl. done.
Qed.







Lemma init_config_missing s c :
  Dom.querySelector_class (containerClass c) (doc s) = None →
  observers (init_config s c) = observers s ∧
  caches (init_config s c) !! trigger c
  = Some (Dom.querySelectorAll_img (imageAttr c) (doc s)).
Proof.
  intros Hq. unfold init_config, bindTrigger, observeImages. simpl.
  rewrite Hq. simpl. by rewrite lookup_insert_eq.
Qed.

Lemma init_config_observers s c o :
  In o (observers (init_config s c)) →
  In o (observers s) ∨ obs_config o = c.
Proof.
  unfold init_config, bindTrigger, observeImages. simpl.
  destruct (Dom.querySelector_class _ _); simpl; [|by left].
  intros [H|[<-|[]]]%in_app_or; [by left|by right].
Qed.

Lemma init_unwatched d config :
  In config GALLERY_CONFIGS →
  Dom.querySelector_class (containerClass config) d = None →
  caches (init d) !! trigger config
  = Some (Dom.querySelectorAll_img (imageAttr config) d) ∧
  (∀ o, In o (observers (init d)) → trigger (obs_config o) ≠ trigger config).
Proof.
  intros Hin Hq.
  pose (c1 := {| trigger := "image-gallery";
                 imageAttr := "hidden-main-gallery-images";
                 containerClass := ".hidden-main-gallery-collection" |}).
  pose (c2 := {| trigger := "community-gallery";
                 imageAttr := "hidden-community-gallery-images";
                 containerClass := ".hidden-community-gallery-collection" |}).
  change (init d) with (init_config (init_config (fresh d) c1) c2).
  destruct Hin as [<-|[<-|[]]].
  - destruct (init_config_missing (fresh d) c1 Hq) as [Ho Hc]. split.
    + by rewrite init_config_other.
    + intros o [H|H]%init_config_observers; [|by rewrite H].
      rewrite Ho in H. destruct H.
  - destruct (init_config_missing (init_config (fresh d) c1) c2) as [Ho Hc];
      [by rewrite init_config_doc|]. split.
    + rewrite init_config_doc in Hc. exact Hc.
    + intros o H. rewrite Ho in H.
      apply init_config_observers in H as [H|H]; [destruct H|by rewrite H].
Qed.

(** X24. When a gallery's CMS container is missing at [init], its cache is
    the one scan made at [init] and stays that in every state reached
    afterwards: no mutation of the page is ever picked up for that gallery. *)
Theorem missing_container_cache_is_fixed d config events :
  In config GALLERY_CONFIGS →
  Dom.querySelector_class (containerClass config) d = None →
  caches (run (init d) events) !! trigger config
  = Some (Dom.querySelectorAll_img (imageAttr config) d).
Proof.
  intros Hin Hq. destruct (init_unwatched d config Hin Hq) as [Hc Ho].
  revert Hc Ho. unfold run. generalize (init d).
  induction events as [|e rest IH]; intros s Hc Ho; simpl; [done|].
  apply IH.
  - rewrite step_cache_unnotified; [done|].
    intros path f _ (o & Hino & _ & Hk). by apply (Ho o).
  - intros o H. apply Ho. by apply (step_bound_observers s e).
Qed.

Lemma missing_container_cache_is_fixed_witness :
  caches (run (init (div 0 None [] [main_img 1 "kitchen.jpg"]))
              [Mutation [] (λ cs, cs ++ [main_img 2 "porch.jpg"])])
    !! "image-gallery"
  = Some (Dom.querySelectorAll_img "hidden-main-gallery-images"
            (div 0 None [] [main_img 1 "kitchen.jpg"])).
Proof.
  apply (missing_container_cache_is_fixed
           (div 0 None [] [main_img 1 "kitchen.jpg"]) main_config).
  - left. reflexivity.
  - reflexivity.
Defined.

End GalleryMore.

(** * Properties of the accordion *)

Module AccordionFacts.
Import Accordion.

Lemma count_all_false (l : list bool) : count (map (λ _, false) l) = 0%nat.
Proof. induction l; simpl; done. Qed.

Lemma count_insert_true (l : list bool) i :
  (i < length l)%nat → count (<[i := true]> (map (λ _, false) l)) = 1%nat.
Proof.
  revert i. induction l as [|x rest IH]; intros [|i] H; simpl in *; try lia.
  - unfold count. simpl. f_equal. apply count_all_false.
  - unfold count in *. simpl. apply IH. lia.
Qed.

Lemma count_insert_false (l : list bool) i :
  (count (<[i := false]> l) ≤ count l)%nat.
Proof.
  revert i. induction l as [|x rest IH]; intros [|i]; simpl; try done.
  - unfold count. simpl. destruct x; simpl; lia.
  - specialize (IH i). unfold count in *. simpl. destruct x; simpl; lia.
Qed.

Lemma lookup_all_false (l : list bool) j b :
  map (λ _, false) l !! j = Some b → b = false.
Proof.
  rewrite NavFacts.lookup_map. destruct (l !! j); simpl; congruence.
Qed.

Lemma mouseenter_items i s :
  bound s = true → is_Some (items s !! i) →
  items (mouseenter i s) = <[i := true]> (map (λ _, false) (items s)).
Proof. intros Hb [x Hx]. unfold mouseenter. by rewrite Hb, Hx. Qed.

Lemma mouseleave_items i s :
  bound s = true → is_Some (items s !! i) →
  items (mouseleave i s) = <[i := false]> (items s).
Proof. intros Hb [x Hx]. unfold mouseleave. by rewrite Hb, Hx. Qed.

(** X19. Hovering an item marks that item and no other: whatever was marked
    before, afterwards an item is active exactly when it is the hovered one, so
    exactly one item is active. *)
Theorem hover_marks_only_that_item i s :
  bound s = true → is_Some (items s !! i) →
  (∀ j b, items (mouseenter i s) !! j = Some b → (b = true ↔ j = i)) ∧
  active_items (mouseenter i s) = 1%nat ∧
  length (items (mouseenter i s)) = length (items s).
Proof.
  intros Hb Hi. unfold active_items. rewrite (mouseenter_items i s Hb Hi).
  assert (i < length (items s))%nat as Hlt by (by apply lookup_lt_is_Some).
  split; [|split].
  - intros j b. destruct (decide (j = i)) as [->|Hne].
    + rewrite list_lookup_insert_eq by (by rewrite length_map).
      intros [= <-]. done.
    + rewrite list_lookup_insert_ne by done.
      intros ->%lookup_all_false. split; [done|]. intros. done.
  - by apply count_insert_true.
  - by rewrite length_insert, length_map.
Qed.

Lemma hover_marks_only_that_item_witness :
  active_items (mouseenter 1 (init [true; false; true])) = 1%nat.
Proof.
  refine (proj1 (proj2 (hover_marks_only_that_item 1 (init [true; false; true])
                          _ _))).
  - reflexivity.
  - by eexists.
Defined.

(** X20. Leaving an item clears that item and leaves every other item as it
    was; entering an item and leaving it again leaves no item active, also
    when other items were marked in the markup. *)
Theorem leave_clears_only_that_item i s :
  bound s = true → is_Some (items s !! i) →
  items (mouseleave i s) !! i = Some false ∧
  (∀ j, j ≠ i → items (mouseleave i s) !! j = items s !! j) ∧
  active_items (mouseleave i (mouseenter i s)) = 0%nat.
Proof.
  intros Hb Hi.
  assert (i < length (items s))%nat as Hlt by (by apply lookup_lt_is_Some).
  rewrite (mouseleave_items i s Hb Hi). split; [|split].
  - by apply list_lookup_insert_eq.
  - intros j Hne. by apply list_lookup_insert_ne.
  - assert (bound (mouseenter i s) = true) as Hb'.
    { destruct Hi as [x Hx]. unfold mouseenter. by rewrite Hb, Hx. }
    assert (is_Some (items (mouseenter i s) !! i)) as Hi'.
    { apply lookup_lt_is_Some.
      rewrite (mouseenter_items i s Hb Hi), length_insert, length_map. done. }
    unfold active_items. rewrite (mouseleave_items _ _ Hb' Hi').
    rewrite (mouseenter_items i s Hb Hi).
    clear Hi Hi' Hb Hb'. revert i Hlt.
    induction (items s) as [|x rest IH]; intros [|i] H; simpl in *; try lia.
    + apply count_all_false.
    + apply IH. lia.
Qed.

Lemma leave_clears_only_that_item_witness :
  active_items (mouseleave 0 (mouseenter 0 (init [false; true; true]))) = 0%nat.
Proof.
  refine (proj2 (proj2 (leave_clears_only_that_item 0 (init [false; true; true])
                          _ _))).
  - reflexivity.
  - by eexists.
Defined.

Lemma step_bound_length s e :
  bound (step s e) = bound s ∧ length (items (step s e)) = length (items s).
Proof.
  destruct e as [i|i]; simpl; unfold mouseenter, mouseleave;
    destruct (bound s) eqn:Hb; try done;
    destruct (items s !! i); simpl; try done;
    by rewrite length_insert, ?length_map.
Qed.

Lemma step_keeps_single s e :
  (active_items s ≤ 1)%nat → (active_items (step s e) ≤ 1)%nat.
Proof.
  intros H. destruct e as [i|i]; simpl.
  - unfold mouseenter. destruct (bound s) eqn:Hb; [|done].
    destruct (items s !! i) as [x|] eqn:Hx; [|done].
    unfold active_items. simpl.
    rewrite count_insert_true; [lia|]. by eapply lookup_lt_Some.
  - unfold mouseleave. destruct (bound s) eqn:Hb; [|done].
    destruct (items s !! i) as [x|] eqn:Hx; [|done].
    unfold active_items in *. simpl.
    pose proof (count_insert_false (items s) i). unfold count in *. lia.
Qed.

Lemma run_keeps_single es s :
  (active_items s ≤ 1)%nat → (active_items (run s es) ≤ 1)%nat.
Proof.
  unfold run. revert s. induction es as [|e rest IH]; intros s H; simpl; [done|].
  by apply IH, step_keeps_single.
Qed.

Lemma run_bound_length es s :
  bound (run s es) = bound s ∧ length (items (run s es)) = length (items s).
Proof.
  unfold run. revert s. induction es as [|e rest IH]; intros s; simpl; [done|].
  destruct (IH (step s e)) as [-> ->]. apply step_bound_length.
Qed.

(** X21. The number of items never changes, and once any existing item has
    been hovered at most one item is active from then on, whatever the markup
    marked and whatever enter and leave events follow. *)
Theorem single_active_after_first_hover markup before i after :
  (i < length markup)%nat →
  length (items (run (init markup) (before ++ Enter i :: after)))
  = length markup ∧
  (active_items (run (init markup) (before ++ Enter i :: after)) ≤ 1)%nat.
Proof.
  intros Hi. split.
  - destruct (run_bound_length (before ++ Enter i :: after) (init markup))
      as [_ ->]. by destruct markup.
  - unfold run. rewrite fold_left_app. cbn [fold_left].
    apply run_keeps_single.
    destruct (run_bound_length before (init markup)) as [Hb Hl].
    unfold run in Hb, Hl. cbn [step].
    assert (bound (init markup) = true) as Hb0.
    { destruct markup; [simpl in Hi; lia|done]. }
    assert (length (items (init markup)) = length markup) as Hl0
      by (by destruct markup).
    destruct (hover_marks_only_that_item i
                (fold_left step before (init markup))) as (_ & -> & _);
      [congruence| |done].
    apply lookup_lt_is_Some. rewrite Hl, Hl0. done.
Qed.

Lemma single_active_after_first_hover_witness :
  (active_items (run (init [true; true; true])
                     ([Leave 0] ++ Enter 2 :: [Leave 1; Enter 0])) ≤ 1)%nat.
Proof.
  refine (proj2 (single_active_after_first_hover [true; true; true]
                   [Leave 0] 2 [Leave 1; Enter 0] _)).
  simpl. lia.
Defined.

(** X22. On a page without accordion items [init] logs one error and attaches
    nothing: no later event changes the state. *)
Theorem no_items_is_inert events :
  length (errors (init [])) = 1%nat ∧ run (init []) events = init [].
Proof.
  split; [done|]. unfold run.
  induction events as [|e rest IH]; [done|]. cbn [fold_left].
  assert (step (init []) e = init []) as ->; [|exact IH].
  by destruct e.
Qed.

End AccordionFacts.
